(** * ADAF inference: vectorisation of per-tile predictions

    A shallow embedding of [adaf_inference.py]: the two vectorisation entry
    points [object_detection_vectors] and [semantic_segmentation_vectors],
    and the orchestrator [main_routine].

    Conventions of the embedding.
    - Python floats (pandas [float64], raster [float32]) are modelled as exact
      rationals [Q]; the not-a-number value is a constructor of its own.
    - A pandas data frame is a list of rows, a row an association list from
      column name to cell.
    - A text file is given by its lines, each already split into fields at
      the separator; a field is a number, a missing value or a text.
    - Python exceptions are the [Raised] outcome of an error/state monad whose
      state is the file system together with a log of file-system events.
    - shapely geometries are finite unions of axis-parallel rectangles; the
      parts of a union are the connected components of its rectangles.  A
      union over a geometry outside this model (a not-a-number coordinate, a
      rectangle of zero area, a sheared pixel) has the outcome [Unspecified].
    - The collaborators of the orchestrator (clock, grid tools, visualisation,
      models, mosaic builder) are parameters that work on the file system. *)

From Stdlib Require Import String Ascii.
From Stdlib Require Import List Bool Arith ZArith QArith Qminmax Qround Lia.
From Stdlib Require Import Permutation.
Import ListNotations.

Local Open Scope list_scope.

(** ** Connected components of a finite graph

    The parts of a geometric union and the regions of a raster are both
    connected components: of rectangles that overlap or share an edge, and of
    equal-valued pixels that are 4-neighbours. *)

Section Components.

Context {A : Type}.
Variable adj : A -> A -> bool.

Definition touches (x : A) (c : list A) : bool :=
  existsb (fun y => adj x y || adj y x) c.

Definition absorb (x : A) (comps : list (list A)) : list (list A) :=
  let (near, far) := partition (touches x) comps in
  (x :: concat near) :: far.

Definition components (l : list A) : list (list A) :=
  fold_right absorb [] l.

(** [linked c x y]: there is a chain of adjacent elements of [c] from [x]
    to [y]. *)
Inductive linked (c : list A) : A -> A -> Prop :=
| linked_refl x : In x c -> linked c x x
| linked_step x y z :
    In x c -> In y c -> adj x y = true \/ adj y x = true ->
    linked c y z -> linked c x z.

Definition connected (c : list A) : Prop :=
  c <> [] /\ forall x y, In x c -> In y c -> linked c x y.

Definition apart (c1 c2 : list A) : Prop :=
  forall x y, In x c1 -> In y c2 -> adj x y = false /\ adj y x = false.

End Components.

(** ** Numbers

    A Python float is a rational or not-a-number.  Arithmetic propagates
    not-a-number and every comparison with it is false. *)

Inductive float : Type :=
| Fin (q : Q)
| NaN.

Definition Qltb (x y : Q) : bool := negb (Qle_bool y x).

Definition fadd (x y : float) : float :=
  match x, y with Fin a, Fin b => Fin (a + b) | _, _ => NaN end.

Definition fsub (x y : float) : float :=
  match x, y with Fin a, Fin b => Fin (a - b) | _, _ => NaN end.

Definition fmul (x y : float) : float :=
  match x, y with Fin a, Fin b => Fin (a * b) | _, _ => NaN end.

Definition feq (x y : float) : bool :=
  match x, y with Fin a, Fin b => Qeq_bool a b | _, _ => false end.

Definition fgt (x y : float) : bool :=
  match x, y with Fin a, Fin b => Qltb b a | _, _ => false end.

Definition fge (x y : float) : bool :=
  match x, y with Fin a, Fin b => Qle_bool b a | _, _ => false end.

Definition flt (x y : float) : bool :=
  match x, y with Fin a, Fin b => Qltb a b | _, _ => false end.

Definition isnan (x : float) : bool :=
  match x with NaN => true | Fin _ => false end.

(** ** Geometry (shapely)

    [box(a, b, c, d)] is the rectangle with opposite corners [(a, b)] and
    [(c, d)]; its arguments are stored as given and [bounds] orders them. *)

Record rect : Type := mkRect { rx0 : Q; ry0 : Q; rx1 : Q; ry1 : Q }.

Definition xlo (r : rect) : Q := Qmin (rx0 r) (rx1 r).
Definition xhi (r : rect) : Q := Qmax (rx0 r) (rx1 r).
Definition ylo (r : rect) : Q := Qmin (ry0 r) (ry1 r).
Definition yhi (r : rect) : Q := Qmax (ry0 r) (ry1 r).

(** shapely's [bounds]: [(minx, miny, maxx, maxy)]. *)
Definition bounds (r : rect) : Q * Q * Q * Q := (xlo r, ylo r, xhi r, yhi r).

(** A rectangle of positive area. *)
Definition rect_valid (r : rect) : bool :=
  negb (Qeq_bool (rx0 r) (rx1 r)) && negb (Qeq_bool (ry0 r) (ry1 r)).

(** Signed length of the common part of the two x-ranges (y-ranges). *)
Definition x_common (r s : rect) : Q := Qmin (xhi r) (xhi s) - Qmax (xlo r) (xlo s).
Definition y_common (r s : rect) : Q := Qmin (yhi r) (yhi s) - Qmax (ylo r) (ylo s).

(** The interiors meet. *)
Definition overlaps (r s : rect) : bool :=
  Qltb 0 (x_common r s) && Qltb 0 (y_common r s).

(** The union is one polygon: the rectangles overlap or share a piece of an
    edge; meeting in a single corner point does not join them. *)
Definition joins (r s : rect) : bool :=
  Qle_bool 0 (x_common r s) && Qle_bool 0 (y_common r s)
  && (Qltb 0 (x_common r s) || Qltb 0 (y_common r s)).

(** One connected part, as the list of rectangles that cover it. *)
Definition polygon : Type := list rect.

Inductive geometry : Type :=
| Polygon (p : polygon)
| MultiPolygon (ps : list polygon)
| Unrepresentable.   (* a coordinate is not-a-number, or a sheared pixel *)

Definition parts (g : geometry) : list polygon :=
  match g with
  | Polygon p => [p]
  | MultiPolygon ps => ps
  | Unrepresentable => []
  end.

Definition rects (g : geometry) : list rect := concat (parts g).

(** What the union operation is modelled for: rectangles of positive area. *)
Definition representable (g : geometry) : bool :=
  match g with
  | Unrepresentable => false
  | _ => forallb rect_valid (rects g)
  end.

Definition assemble (ps : list polygon) : geometry :=
  match ps with
  | [p] => Polygon p
  | _ => MultiPolygon ps
  end.

(** [unary_union]: [None] where the model does not say what GEOS returns. *)
Definition unary_union (gs : list geometry) : option geometry :=
  if forallb representable gs
  then Some (assemble (components joins (concat (map rects gs))))
  else None.

Definition box (a b c d : float) : geometry :=
  match a, b, c, d with
  | Fin a, Fin b, Fin c, Fin d => Polygon [mkRect a b c d]
  | _, _, _, _ => Unrepresentable
  end.

(** Two geometries overlap when two of their rectangles do. *)
Definition geom_overlaps (g h : geometry) : bool :=
  existsb (fun r => existsb (overlaps r) (rects h)) (rects g).

(** A single polygon. *)
Definition single_polygon (g : geometry) : Prop :=
  exists p, g = Polygon p /\ connected joins p.

(** ** Exceptions and outcomes *)

Inductive exn : Type :=
| IndexError          (* [list(...)[0]] on an empty list *)
| FileNotFoundError   (* [os.stat], [shutil.copy] on a missing path *)
| EmptyDataError      (* [pd.read_csv]: no columns to parse *)
| ParserError         (* [pd.read_csv]: a line with too many fields *)
| ValueError          (* length mismatch of [data.columns], [int(nan)] *)
| TypeError           (* arithmetic or comparison on a text cell *)
| KeyError            (* a column that is not there *)
| RasterioIOError     (* [rasterio.open] on something that is no raster *)
| WrongMlType.        (* [Exception("Wrong ml_type: ...")] *)

(** [Unspecified]: the call reached a library behaviour the model leaves
    open (a union over geometries that are not [representable]). *)
Inductive outcome (A : Type) : Type :=
| Returned (a : A)
| Raised (e : exn)
| Unspecified.

Arguments Returned {A} a.
Arguments Raised {A} e.
Arguments Unspecified {A}.

Class Monad (M : Type -> Type) : Type :=
  { ret : forall {A}, A -> M A;
    bind : forall {A B}, M A -> (A -> M B) -> M B }.

Declare Scope monad_scope.
Delimit Scope monad_scope with monad.
Notation "x <- c1 ;; c2" := (bind c1 (fun x => c2))
  (at level 61, c1 at next level, right associativity) : monad_scope.
Notation "' pat <- c1 ;; c2" := (bind c1 (fun x => match x with pat => c2 end))
  (at level 61, pat pattern, c1 at next level, right associativity) : monad_scope.
Notation "c1 ;; c2" := (bind c1 (fun _ => c2))
  (at level 61, right associativity) : monad_scope.
Local Open Scope monad_scope.

#[export] Instance outcome_monad : Monad outcome :=
  { ret := fun _ a => Returned a;
    bind := fun _ _ m k =>
      match m with
      | Returned a => k a
      | Raised e => Raised e
      | Unspecified => Unspecified
      end }.

Fixpoint mapM {M : Type -> Type} `{Monad M} {A B : Type}
  (f : A -> M B) (l : list A) : M (list B) :=
  match l with
  | [] => ret []
  | x :: xs => y <- f x ;; ys <- mapM f xs ;; ret (y :: ys)
  end.

(** A [for] loop threading an accumulator. *)
Fixpoint foldM {M : Type -> Type} `{Monad M} {A S : Type}
  (f : S -> A -> M S) (s : S) (l : list A) : M S :=
  match l with
  | [] => ret s
  | x :: xs => s' <- f s x ;; foldM f s' xs
  end.

(** ** Paths (pathlib, POSIX flavour) *)

Record path : Type := mkPath { absolute : bool; segments : list string }.

Definition Path_cwd : path := mkPath false [].          (* [Path()] *)

(** [p / q] *)
Definition joinpath (p q : path) : path :=
  if absolute q then q else mkPath (absolute p) (segments p ++ segments q).

Definition child (p : path) (name : string) : path :=
  joinpath p (mkPath false [name]).

Definition parent (p : path) : path :=
  mkPath (absolute p) (removelast (segments p)).

Definition name (p : path) : string := last (segments p) EmptyString.

(** [p.parts]: the root counts as a part of an absolute path. *)
Inductive part : Type := Root | Seg (s : string).

Definition path_parts (p : path) : list part :=
  (if absolute p then [Root] else []) ++ map Seg (segments p).

Definition path_of_part (x : part) : path :=
  match x with Root => mkPath true [] | Seg s => mkPath false [s] end.

(** [l[-n:]] *)
Definition last_n {A : Type} (n : nat) (l : list A) : list A :=
  skipn (List.length l - n) l.

Definition path_str (p : path) : string :=
  match absolute p, segments p with
  | false, [] => "."
  | false, l => String.concat "/" l
  | true, l => String.append "/" (String.concat "/" l)
  end.

(** [str(Path().joinpath( *file.parts[-3:] ))] *)
Definition provenance (file : path) : string :=
  path_str (fold_left joinpath (map path_of_part (last_n 3 (path_parts file))) Path_cwd).

Fixpoint list_eqb {A : Type} (eqb : A -> A -> bool) (l m : list A) : bool :=
  match l, m with
  | [], [] => true
  | x :: l', y :: m' => eqb x y && list_eqb eqb l' m'
  | _, _ => false
  end.

Definition path_eqb (p q : path) : bool :=
  Bool.eqb (absolute p) (absolute q)
  && list_eqb String.eqb (segments p) (segments q).

Definition ends_with (suffix s : string) : bool :=
  let n := String.length s in
  let m := String.length suffix in
  (m <=? n)%nat && String.eqb (substring (n - m) m s) suffix.

(** [p] lies in the directory tree rooted at [d]. *)
Definition under (d p : path) : bool :=
  Bool.eqb (absolute d) (absolute p)
  && list_eqb String.eqb (segments d) (firstn (List.length (segments d)) (segments p)).

(** ** Data frames (pandas, geopandas) *)

Inductive cell : Type :=
| CNum (x : float)
| CStr (s : string)
| CGeom (g : geometry).

Definition row : Type := list (string * cell).
Definition frame : Type := list row.

Definition null : cell := CNum NaN.

Definition isnull (c : cell) : bool :=
  match c with CNum x => isnan x | _ => false end.

Fixpoint lookup (c : string) (r : row) : option cell :=
  match r with
  | [] => None
  | (k, v) :: r' => if String.eqb k c then Some v else lookup c r'
  end.

(** [row[c] = v]: an existing column keeps its place, a new one goes last. *)
Fixpoint set_col (c : string) (v : cell) (r : row) : row :=
  match r with
  | [] => [(c, v)]
  | (k, w) :: r' => if String.eqb k c then (k, v) :: r' else (k, w) :: set_col c v r'
  end.

Definition drop_cols (cs : list string) (r : row) : row :=
  filter (fun kv => negb (existsb (String.eqb (fst kv)) cs)) r.

Definition columns (f : frame) : list string :=
  match f with
  | [] => []
  | r :: _ => map fst r
  end.

(** The attributes of a feature: its columns other than the geometry. *)
Definition attributes (r : row) : list string :=
  filter (fun k => negb (String.eqb k "geometry")) (map fst r).

Definition num (c : string) (r : row) : outcome float :=
  match lookup c r with
  | Some (CNum x) => Returned x
  | Some _ => Raised TypeError
  | None => Raised KeyError
  end.

Definition geom (r : row) : outcome geometry :=
  match lookup "geometry" r with
  | Some (CGeom g) => Returned g
  | Some _ => Raised TypeError
  | None => Raised KeyError
  end.

Definition key_of (c : string) (r : row) : outcome cell :=
  match lookup c r with
  | Some v => Returned v
  | None => Raised KeyError
  end.

(** [data[c] = f(data)], row by row. *)
Definition assign (c : string) (f : row -> outcome cell) (d : frame) : outcome frame :=
  mapM (fun r => v <- f r ;; ret (set_col c v r)) d.

(** [data[mask(data)]] *)
Definition select (mask : row -> outcome bool) (d : frame) : outcome frame :=
  m <- mapM mask d ;;
  ret (map snd (filter fst (combine m d))).

(** Equality of group keys.  A missing value equals nothing. *)
Definition cell_eqb (a b : cell) : bool :=
  match a, b with
  | CNum x, CNum y => feq x y
  | CStr s, CStr t => String.eqb s t
  | _, _ => false
  end.

(** The order group keys are sorted in: numbers, then text. *)
Definition cell_leb (a b : cell) : bool :=
  match a, b with
  | CNum (Fin x), CNum (Fin y) => Qle_bool x y
  | CStr s, CStr t => String.leb s t
  | CNum _, _ => true
  | CStr _, CGeom _ => true
  | _, _ => false
  end.

Fixpoint insert_sorted (k : cell) (l : list cell) : list cell :=
  match l with
  | [] => [k]
  | h :: t => if cell_leb k h then k :: h :: t else h :: insert_sorted k t
  end.

Definition sort_keys (l : list cell) : list cell := fold_right insert_sorted [] l.

(** The distinct keys, each at its first occurrence. *)
Fixpoint distinct (l : list cell) : list cell :=
  match l with
  | [] => []
  | k :: t => k :: filter (fun h => negb (cell_eqb k h)) (distinct t)
  end.

(** [groupby(by, sort=True, dropna=True)]: the sorted distinct keys that are
    not missing. *)
Definition group_keys (ks : list cell) : list cell :=
  sort_keys (distinct (filter (fun k => negb (isnull k)) ks)).

(** The aggregation function ["first"]: the first value that is not missing. *)
Definition agg_first (c : string) (group : frame) : cell :=
  match filter (fun v => negb (isnull v))
          (flat_map (fun r => match lookup c r with Some v => [v] | None => [] end) group)
  with
  | v :: _ => v
  | [] => null
  end.

(** A frame with an index, as [dissolve] returns it. *)
Definition indexed_frame : Type := list (cell * row).

(** [GeoDataFrame.dissolve]: one row per group; its geometry is the union of
    the group's geometries, its other columns are aggregated by ["first"].
    [key] is the grouping column ([by=...]), or a constant when there is
    none. *)
Definition dissolve_group (by_cols : list string) (d : frame)
  (ks : list cell) (k : cell) : outcome (cell * row) :=
  let group := map snd (filter (fun kr => cell_eqb (fst kr) k) (combine ks d)) in
  gs <- mapM geom group ;;
  match unary_union gs with
  | None => Unspecified
  | Some u =>
      let others :=
        filter (fun c => negb (existsb (String.eqb c) ("geometry"%string :: by_cols)))
               (columns d) in
      ret (k, ("geometry"%string, CGeom u) :: map (fun c => (c, agg_first c group)) others)
  end.

Definition dissolve (by_col : option string) (d : frame) : outcome indexed_frame :=
  ks <- mapM (fun r => match by_col with
                       | Some c => key_of c r
                       | None => Returned (CNum (Fin 0))
                       end) d ;;
  _ <- mapM geom d ;;
  mapM (dissolve_group (match by_col with Some c => [c] | None => [] end) d ks)
       (group_keys ks).

(** [explode]: one row per part of the row's geometry. *)
Definition explode (d : indexed_frame) : outcome indexed_frame :=
  rs <- mapM (fun ir =>
                g <- geom (snd ir) ;;
                ret (map (fun p => (fst ir, set_col "geometry" (CGeom (Polygon p)) (snd ir)))
                         (parts g))) d ;;
  ret (concat rs).

(** [reset_index(drop=False)]: the index becomes the first column. *)
Definition reset_index (index_name : string) (d : indexed_frame) : frame :=
  map (fun ir => (index_name, fst ir) :: snd ir) d.

(** [explode(ignore_index=True)]: the index is dropped. *)
Definition ignore_index (d : indexed_frame) : frame := map snd d.

(** The overlap resolver of both entry points:
    [dissolve(by="label").explode(index_parts=False).reset_index(drop=False)]. *)
Definition resolve_overlaps (d : frame) : outcome frame :=
  dis <- dissolve (Some "label"%string) d ;;
  ex <- explode dis ;;
  ret (reset_index "label" ex).

(** ** Rasters (rasterio) *)

(** [Affine(a, b, c, d, e, f)]: pixel [(col, row)] goes to
    [(a*col + b*row + c, d*col + e*row + f)]. *)
Record affine : Type :=
  mkAffine { ta : Q; tb : Q; tc : Q; td : Q; te : Q; tf : Q }.

Record raster : Type :=
  mkRaster { band : list (list float); transform : affine; raster_crs : option Z }.

Record pixel : Type := mkPixel { prow : Z; pcol : Z; pval : float }.

Definition world_x (t : affine) (col row : Z) : Q :=
  ta t * inject_Z col + tb t * inject_Z row + tc t.

Definition world_y (t : affine) (col row : Z) : Q :=
  td t * inject_Z col + te t * inject_Z row + tf t.

(** The world rectangle of a pixel, from two opposite pixel corners. *)
Definition pixel_rect (t : affine) (p : pixel) : rect :=
  mkRect (world_x t (pcol p) (prow p)) (world_y t (pcol p) (prow p))
         (world_x t (pcol p + 1) (prow p + 1)) (world_y t (pcol p + 1) (prow p + 1)).

Definition axis_parallel (t : affine) : bool :=
  Qeq_bool (tb t) 0 && Qeq_bool (td t) 0.

Definition enumerate {A : Type} (l : list A) : list (Z * A) :=
  combine (map Z.of_nat (seq 0 (List.length l))) l.

Definition pixels (b : list (list float)) : list pixel :=
  flat_map (fun rl => map (fun cv => mkPixel (fst rl) (fst cv) (snd cv))
                          (enumerate (snd rl)))
           (enumerate b).

(** 4-connectivity between pixels of equal value. *)
Definition pix_adj (p q : pixel) : bool :=
  feq (pval p) (pval q)
  && (Z.abs (prow p - prow q) + Z.abs (pcol p - pcol q) =? 1)%Z.

Definition region_value (region : list pixel) : float :=
  match region with
  | p :: _ => pval p
  | [] => NaN
  end.

Definition region_geometry (t : affine) (region : list pixel) : geometry :=
  if axis_parallel t then Polygon (map (pixel_rect t) region) else Unrepresentable.

(** [rasterio.features.shapes(image, transform=transform)]: the connected
    regions of equal value, each with its value. *)
Definition regions (image : list (list float)) : list (list pixel) :=
  components pix_adj (pixels image).

Definition shapes (image : list (list float)) (t : affine) : list (geometry * float) :=
  map (fun region => (region_geometry t region, region_value region)) (regions image).

(** [a[mask] = v] *)
Definition assign_where (mask : list (list bool)) (v : float)
  (a : list (list float)) : list (list float) :=
  map (fun ml : list bool * list float =>
         map (fun mx : bool * float => if fst mx then v else snd mx)
             (combine (fst ml) (snd ml)))
      (combine mask a).

Definition array_test (test : float -> bool) (a : list (list float)) : list (list bool) :=
  map (map test) a.

(** Lines 135-142 of [semantic_segmentation_vectors]. *)
Definition binarize (prob_mask : list (list float)) (threshold : Q) : list (list float) :=
  let prediction := prob_mask in
  let feature := array_test (fun v => fge v (Fin threshold)) prob_mask in
  let background := array_test (fun v => flt v (Fin threshold)) prob_mask in
  let prediction := assign_where feature (Fin 1) prediction in
  assign_where background (Fin 0) prediction.

(** Lines 145-151: the polygons of the regions of value 1. *)
Definition foreground_polygons (prediction : list (list float)) (t : affine) : list geometry :=
  map fst (filter (fun gv => feq (snd gv) (Fin 1)) (shapes prediction t)).

(** ** The file system and the state monad *)

Inductive content : Type :=
| Table (lines : list (list cell))        (* text, tokenised at the separator *)
| RasterFile (r : raster)
| VectorFile (crs : option Z) (d : frame) (* a GPKG dataset *)
| Opaque.

Record file : Type := mkFile { st_size : N; data : content }.

Definition filesystem : Type := list (path * file).

Inductive event : Type :=
| EvGlob (dir : path)
| EvStat (p : path)
| EvReadCsv (p : path)
| EvOpenRaster (p : path)
| EvWrite (p : path)
| EvMkdir (p : path)
| EvCopy (src dst : path)
| EvRmtree (p : path)
| EvUnlink (p : path)
| EvLog (msg : string).

Record state : Type := mkState { fs : filesystem; log : list event }.

Definition M (A : Type) : Type := state -> outcome A * state.

#[export] Instance M_monad : Monad M :=
  { ret := fun _ a s => (Returned a, s);
    bind := fun _ _ m k s =>
      match m s with
      | (Returned a, s') => k a s'
      | (Raised e, s') => (Raised e, s')
      | (Unspecified, s') => (Unspecified, s')
      end }.

Definition lift {A : Type} (o : outcome A) : M A := fun s => (o, s).

Definition raise {A : Type} (e : exn) : M A := lift (Raised e).

Definition emit (e : event) : M unit :=
  fun s => (Returned tt, mkState (fs s) (log s ++ [e])).

Definition get_fs : M filesystem := fun s => (Returned (fs s), s).

Definition put_fs (f : filesystem) : M unit :=
  fun s => (Returned tt, mkState f (log s)).

Fixpoint find_file (p : path) (f : filesystem) : option file :=
  match f with
  | [] => None
  | (q, x) :: f' => if path_eqb q p then Some x else find_file p f'
  end.

Definition remove_file (p : path) (f : filesystem) : filesystem :=
  filter (fun qx => negb (path_eqb (fst qx) p)) f.

(** [dir.glob("*" + suffix)]: the entries of [dir] whose name ends in
    [suffix], each as [dir / name]. *)
Definition listing (f : filesystem) (dir : path) (suffix : string) : list path :=
  map fst (filter (fun qx =>
                     match segments (fst qx) with
                     | [] => false
                     | _ => path_eqb (parent (fst qx)) dir
                            && ends_with suffix (name (fst qx))
                     end) f).

Definition glob (dir : path) (suffix : string) : M (list path) :=
  emit (EvGlob dir) ;;
  f <- get_fs ;;
  ret (listing f dir suffix).

(** [os.stat(p).st_size] *)
Definition os_stat_size (p : path) : M N :=
  emit (EvStat p) ;;
  f <- get_fs ;;
  match find_file p f with
  | Some x => ret (st_size x)
  | None => raise FileNotFoundError
  end.

(** [to_file(p, driver="GPKG")]; the write itself is taken to succeed. *)
Definition to_file (p : path) (crs : option Z) (d : frame) : M unit :=
  emit (EvWrite p) ;;
  f <- get_fs ;;
  put_fs ((p, mkFile 1 (VectorFile crs d)) :: remove_file p f).

(** [shutil.rmtree(p)]; directories are implicit, so the tree is taken to
    exist. *)
Definition rmtree (p : path) : M unit :=
  emit (EvRmtree p) ;;
  f <- get_fs ;;
  put_fs (filter (fun qx => negb (under p (fst qx))) f).

(** [Path(p).unlink()] *)
Definition unlink (p : path) : M unit :=
  emit (EvUnlink p) ;;
  f <- get_fs ;;
  match find_file p f with
  | Some _ => put_fs (remove_file p f)
  | None => raise FileNotFoundError
  end.

(** [p.mkdir(parents=True, exist_ok=True)]: directories are implicit. *)
Definition mkdir (p : path) : M unit := emit (EvMkdir p).

(** [shutil.copy(src, dst)] *)
Definition copy (src dst : path) : M unit :=
  emit (EvCopy src dst) ;;
  f <- get_fs ;;
  match find_file src f with
  | Some x => put_fs ((dst, x) :: remove_file dst f)
  | None => raise FileNotFoundError
  end.

(** [rasterio.open(p)] followed by [read()], [transform] and [crs] *)
Definition open_raster (p : path) : M raster :=
  emit (EvOpenRaster p) ;;
  f <- get_fs ;;
  match find_file p f with
  | Some (mkFile _ (RasterFile r)) => ret r
  | Some _ => raise RasterioIOError
  | None => raise RasterioIOError
  end.

(** ** Reading a prediction file

    [pd.read_csv(p, sep=" ", header=None)]: the first line fixes the number
    of columns; a later line with more fields is an error, one with fewer is
    filled with missing values. *)

Definition pad (n : nat) (l : list cell) : list cell :=
  l ++ repeat null (n - List.length l).

Definition read_csv (lines : list (list cell)) : outcome (list (list cell)) :=
  match lines with
  | [] => Raised EmptyDataError
  | first :: rest =>
      let n := List.length first in
      if existsb (fun l => (n <? List.length l)%nat) rest
      then Raised ParserError
      else Returned (map (pad n) lines)
  end.

Definition pd_read_csv (p : path) : M (list (list cell)) :=
  emit (EvReadCsv p) ;;
  f <- get_fs ;;
  match find_file p f with
  | Some (mkFile _ (Table lines)) => lift (read_csv lines)
  | Some _ => raise ParserError
  | None => raise FileNotFoundError
  end.

(** [data.columns = names] *)
Definition set_columns (names : list string) (t : list (list cell)) : outcome frame :=
  let width := match t with [] => 0%nat | r :: _ => List.length r end in
  if (width =? List.length names)%nat
  then Returned (map (combine names) t)
  else Raised ValueError.

Definition schema : list string :=
  ["x0"; "y0"; "x1"; "y1"; "label"; "score"; "epsg"; "res"; "x_min"; "y_max"]%string.

(** [int(x)] rounds towards zero. *)
Definition Qtrunc (q : Q) : Z :=
  if Qle_bool 0 q then Qfloor q else Qceiling q.

(** [CRS.from_epsg(int(data.epsg[0]))]; the coordinate reference system is
    kept as its EPSG code. *)
Definition from_epsg (d : frame) : outcome Z :=
  match d with
  | [] => Raised IndexError
  | r :: _ =>
      match lookup "epsg" r with
      | Some (CNum (Fin q)) => Returned (Qtrunc q)
      | Some _ => Raised ValueError
      | None => Raised KeyError
      end
  end.

(** ** [object_detection_vectors] *)

(** Lines 67-70: pixel coordinates to world coordinates. *)
Definition to_world_x (c : string) (r : row) : outcome cell :=
  x_min <- num "x_min" r ;; res <- num "res" r ;; x <- num c r ;;
  ret (CNum (fadd x_min (fmul res x))).

Definition to_world_y (c : string) (r : row) : outcome cell :=
  y_max <- num "y_max" r ;; res <- num "res" r ;; y <- num c r ;;
  ret (CNum (fsub y_max (fmul res y))).

(** Line 72: [box( *a ) for a in zip(data.x0, data.y0, data.x1, data.y1)]. *)
Definition bbox (r : row) : outcome cell :=
  x0 <- num "x0" r ;; y0 <- num "y0" r ;; x1 <- num "x1" r ;; y1 <- num "y1" r ;;
  ret (CGeom (box x0 y0 x1 y1)).

(** Line 76: [data['score'] > threshold]. *)
Definition above (threshold : Q) (r : row) : outcome bool :=
  s <- num "score" r ;; ret (fgt s (Fin threshold)).

(** Lines 67-79: the geometry records of one prediction file. *)
Definition detection_records (file : path) (threshold : Q) (keep_ml_paths : bool)
  (d : frame) : outcome frame :=
  d <- assign "x0" (to_world_x "x0") d ;;
  d <- assign "x1" (to_world_x "x1") d ;;
  d <- assign "y0" (to_world_y "y0") d ;;
  d <- assign "y1" (to_world_y "y1") d ;;
  d <- assign "geometry" bbox d ;;
  let d := map (drop_cols ["x0"; "y0"; "x1"; "y1"; "epsg"; "res"; "x_min"; "y_max"]%string) d in
  d <- select (above threshold) d ;;
  if keep_ml_paths
  then assign "prediction_path" (fun _ => ret (CStr (provenance file))) d
  else ret d.

(** A Python [dict] from label to directory, in insertion order. *)
Definition dict : Type := list (string * path).

Definition values (d : dict) : list path := map snd d.

Fixpoint dict_set (k : string) (v : path) (d : dict) : dict :=
  match d with
  | [] => [(k, v)]
  | (k', v') :: d' => if String.eqb k' k then (k', v) :: d' else (k', v') :: dict_set k v d'
  end.

(** [l[0]] *)
Definition first {A : Type} (l : list A) : outcome A :=
  match l with
  | [] => Raised IndexError
  | x :: _ => Returned x
  end.

(** The loop state: [appended_data] and [crs]. *)
Definition od_acc : Type := list frame * option Z.

(** Lines 54-82: the body of the loop over the files of one label. *)
Definition od_file (path_to_predictions : path) (threshold : Q) (keep_ml_paths : bool)
  (acc : od_acc) (file : path) : M od_acc :=
  let file_path := joinpath path_to_predictions file in
  size <- os_stat_size file_path ;;
  if negb (size =? 0)%N then
    t <- pd_read_csv file_path ;;
    d <- lift (set_columns schema t) ;;
    crs <- match snd acc with
           | None => code <- lift (from_epsg d) ;; ret (Some code)
           | Some code => ret (Some code)
           end ;;
    d <- lift (detection_records file threshold keep_ml_paths d) ;;
    if (0 <? List.length d)%nat
    then ret (fst acc ++ [d], crs)
    else ret (fst acc, crs)
  else ret acc.

(** Lines 49-82: the body of the loop over the labels. *)
Definition od_label (path_to_predictions : path) (threshold : Q) (keep_ml_paths : bool)
  (acc : od_acc) (item : string * path) : M od_acc :=
  let predicts_dir := snd item in
  file_list <- glob predicts_dir ".txt" ;;
  foldM (od_file path_to_predictions threshold keep_ml_paths) acc file_list.

Definition object_detection_vectors (predictions_dirs_dict : dict)
  (threshold : Q) (keep_ml_paths : bool) : M string :=
  path_to_predictions <- lift (first (values predictions_dirs_dict)) ;;
  let output_path := child (parent path_to_predictions) "object_detection.gpkg" in
  acc <- foldM (od_label path_to_predictions threshold keep_ml_paths)
               ([], None) predictions_dirs_dict ;;
  let (appended_data, crs) := (acc : od_acc) in
  match appended_data with
  | _ :: _ =>
      d <- lift (resolve_overlaps (concat appended_data)) ;;
      to_file output_path crs d ;;
      ret (path_str output_path)
  | [] => ret ""%string
  end.

(** ** [semantic_segmentation_vectors] *)

(** The loop state: [appended_data] and [crs]. *)
Definition seg_acc : Type := list frame * option Z.

(** Lines 130-160: the body of the loop over the rasters of one label. *)
Definition seg_file (label : string) (threshold : Q) (keep_ml_paths : bool)
  (acc : seg_acc) (file : path) : M seg_acc :=
  src <- open_raster file ;;
  let prob_mask := band src in
  let crs := raster_crs src in
  let prediction := binarize prob_mask threshold in
  let poly := foreground_polygons prediction (transform src) in
  match poly with
  | _ :: _ =>
      let predicted_labels := map (fun g => [("geometry"%string, CGeom g)]) poly in
      dis <- lift (dissolve None predicted_labels) ;;
      ex <- lift (explode dis) ;;
      let predicted_labels := ignore_index ex in
      let predicted_labels := map (set_col "label" (CStr label)) predicted_labels in
      let predicted_labels :=
        if keep_ml_paths
        then map (set_col "prediction_path" (CStr (provenance file))) predicted_labels
        else predicted_labels in
      ret (fst acc ++ [predicted_labels], crs)
  | [] => ret (fst acc, crs)
  end.

Definition seg_label (threshold : Q) (keep_ml_paths : bool)
  (acc : seg_acc) (item : string * path) : M seg_acc :=
  let (label, predicts_dir) := item in
  tif_list <- glob predicts_dir ".tif" ;;
  foldM (seg_file label threshold keep_ml_paths) acc tif_list.

Definition semantic_segmentation_vectors (predictions_dirs_dict : dict)
  (threshold : Q) (keep_ml_paths : bool) : M string :=
  path_to_predictions <- lift (first (values predictions_dirs_dict)) ;;
  let output_path := child (parent path_to_predictions) "semantic_segmentation.gpkg" in
  acc <- foldM (seg_label threshold keep_ml_paths) ([], None) predictions_dirs_dict ;;
  let (appended_data, crs) := (acc : seg_acc) in
  match appended_data with
  | _ :: _ =>
      d <- lift (resolve_overlaps (concat appended_data)) ;;
      to_file output_path crs d ;;
      ret (path_str output_path)
  | [] => ret ""%string
  end.

(** ** The orchestrator *)

(** [Path(s)]: the text between slashes, without the empty and the [.]
    segments. *)
Fixpoint split_slash (s : string) (cur : string) : list string :=
  match s with
  | EmptyString => [cur]
  | String c s' =>
      if Ascii.eqb c "/"%char
      then cur :: split_slash s' EmptyString
      else split_slash s' (String.append cur (String c EmptyString))
  end.

Definition Path (s : string) : path :=
  mkPath (prefix "/" s)
         (filter (fun x => negb (String.eqb x "") && negb (String.eqb x "."))
                 (split_slash s EmptyString)).

(** [s[:-n]] *)
Definition drop_last (n : nat) (s : string) : string :=
  substring 0 (String.length s - n) s.

(** [needle in s] *)
Definition contains (needle s : string) : bool :=
  match index 0 needle s with Some _ => true | None => false end.

(** [p.stem]: the name up to its last dot, a leading dot apart. *)
Fixpoint last_dot (s : string) (pos : nat) (found : option nat) : option nat :=
  match s with
  | EmptyString => found
  | String c s' =>
      last_dot s' (S pos) (if Ascii.eqb c "."%char then Some pos else found)
  end.

Definition stem (p : path) : string :=
  match last_dot (name p) 0 None with
  | Some (S n) => substring 0 (S n) (name p)
  | _ => name p
  end.

Record inputs : Type :=
  mkInputs { dem_path : path;
             vis_exist_ok : bool;
             ml_type : string;
             labels : list string;
             save_ml_output : bool;
             save_vis : bool }.

Inductive model_kind : Type := FasterRCNN | HRNet.

(** The collaborators outside this file: the clock, the grid tools, the
    visualisation, the models and the mosaic builder.  Each works on the
    file system and may raise. *)
Definition external (A : Type) : Type := filesystem -> outcome A * filesystem.

Record collaborators : Type :=
  mkCollaborators
    { stamp : string;                        (* [strftime("_%Y%m%d_%H%M%S", ...)] *)
      cpu_count : Z;
      poly_from_valid : path -> path -> external path;
      bounding_grid : path -> Z -> external (list rect);
      filter_by_outline : list rect -> path -> path -> external (list rect);
      tiled_processing : path -> list rect -> Z -> path -> external (path * option path);
      load_model : model_kind -> option string -> external unit;
      make_predictions_on_patches_object_detection : string -> path -> external path;
      make_predictions_on_patches_segmentation : string -> path -> external path;
      build_vrt_from_list : list path -> path -> external unit }.

Definition call {A : Type} (f : external A) : M A :=
  fun s => let (o, f') := f (fs s) in (o, mkState f' (log s)).

(** [run_visualisations(dem_path, tile_size, save_dir, nr_processes)] *)
Definition run_visualisations (w : collaborators) (dem : path) (tile_size : Z)
  (save_dir : path) (nr_processes : Z) : M (path * option path) :=
  let in_file := dem in
  let save_vis := save_dir in
  valid_data_outline <- call (poly_from_valid w in_file save_vis) ;;
  tiles_extents <- call (bounding_grid w in_file tile_size) ;;
  let refgrid_name :=
    Path (String.append (drop_last 4 (path_str in_file)) "_refgrid.gpkg") in
  tiles_extents <- call (filter_by_outline w tiles_extents valid_data_outline refgrid_name) ;;
  out_paths <- call (tiled_processing w in_file tiles_extents nr_processes save_vis) ;;
  unlink valid_data_outline ;;
  unlink refgrid_name ;;
  ret out_paths.

(** The weights of the object-detection models, [models.get(label)]. *)
Definition od_models (label : string) : option string :=
  if String.eqb label "barrow" then Some ".\ml_models\OD_barrow.tar"%string
  else if String.eqb label "enclosure" then Some ".\ml_models\OD_enclosure.tar"%string
  else if String.eqb label "ringfort" then Some ".\ml_models\OD_ringfort.tar"%string
  else if String.eqb label "AO" then Some ".\ml_models\OD_AO.tar"%string
  else None.

Definition seg_models (label : string) : option string :=
  let tail := "_HRNet_SLRM_512px_pretrained_train_12_val_124_with_Transformation.tar"%string in
  if String.eqb label "barrow" then Some (String.append ".\ml_models\barrow" tail)
  else if String.eqb label "enclosure" then Some (String.append ".\ml_models\enclosure" tail)
  else if String.eqb label "ringfort" then Some (String.append ".\ml_models\ringfort" tail)
  else if String.eqb label "AO" then Some (String.append ".\ml_models\AO" tail)
  else None.

Definition run_aitlas_object_detection (w : collaborators) (labels : list string)
  (images_dir : path) : M dict :=
  foldM (fun predictions_dirs label =>
           call (load_model w FasterRCNN (od_models label)) ;;
           preds_dir <- call (make_predictions_on_patches_object_detection w label images_dir) ;;
           ret (dict_set label preds_dir predictions_dirs))
        [] labels.

Definition run_aitlas_segmentation (w : collaborators) (labels : list string)
  (images_dir : path) : M dict :=
  foldM (fun predictions_dirs label =>
           call (load_model w HRNet (seg_models label)) ;;
           preds_dir <- call (make_predictions_on_patches_segmentation w label images_dir) ;;
           ret (dict_set label preds_dir predictions_dirs))
        [] labels.

(** [for x in l: body(x)] *)
Definition for_each {A : Type} (l : list A) (body : A -> M unit) : M unit :=
  foldM (fun _ x => body x) tt l.

(** [glob.glob((Path(p_dir) / f"*{label}*.tif").as_posix())] *)
Definition glob_label_tif (p_dir : path) (label : string) : M (list path) :=
  l <- glob p_dir ".tif" ;;
  ret (filter (fun p => contains label (drop_last 4 (name p))) l).

Definition default_threshold : Q := 1 # 2.

(** The VISUALIZATIONS block of [main_routine]: the directory of the
    visualisations and the mosaic over them, if any. *)
Definition visualize (w : collaborators) (inp : inputs) (save_dir : path)
  : M (path * option path) :=
  let dem := dem_path inp in
  emit (EvLog "vis_inputs") ;;
  if vis_exist_ok inp then
    let vis_path := child save_dir "visualization" in
    mkdir vis_path ;;
    copy dem (child vis_path (name dem)) ;;
    ret (vis_path, None)
  else
    let my_cpus := (cpu_count w - 2)%Z in
    let my_cpus := if (my_cpus <? 1)%Z then 1%Z else my_cpus in
    let tile_size_px := 1024%Z in
    out_paths <- run_visualisations w dem tile_size_px save_dir my_cpus ;;
    emit (EvLog "vis_results") ;;
    ret out_paths.

(** The INFERENCE block: inference, vectorisation and the handling of the
    raw predictions, by inference mode. *)
Definition infer (w : collaborators) (inp : inputs) (save_dir vis_path : path)
  : M string :=
  emit (EvLog "inference_inputs") ;;
  if String.eqb (ml_type inp) "object detection" then
    predictions_dict <- run_aitlas_object_detection w (labels inp) vis_path ;;
    vector_path <- object_detection_vectors predictions_dict default_threshold
                     (save_ml_output inp) ;;
    (if negb (save_ml_output inp)
     then for_each predictions_dict (fun item => rmtree (snd item))
     else ret tt) ;;
    ret vector_path
  else if String.eqb (ml_type inp) "segmentation" then
    predictions_dict <- run_aitlas_segmentation w (labels inp) vis_path ;;
    vector_path <- semantic_segmentation_vectors predictions_dict default_threshold
                     (save_ml_output inp) ;;
    (if save_ml_output inp
     then for_each predictions_dict (fun item =>
            let (label, p_dir) := (item : string * path) in
            tif_list <- glob_label_tif p_dir label ;;
            let vrt_name :=
              child save_dir (stem p_dir ++ "_" ++ label ++ ".vrt")%string in
            call (build_vrt_from_list w tif_list vrt_name))
     else for_each predictions_dict (fun item => rmtree (snd item))) ;;
    ret vector_path
  else raise WrongMlType.

(** The last block: removal of the visualisations. *)
Definition cleanup (inp : inputs) (vis_path : path) (vrt_path : option path) : M unit :=
  if negb (save_vis inp) then
    rmtree vis_path ;;
    match vrt_path with
    | Some v => unlink v
    | None => ret tt
    end
  else ret tt.

Definition run_dir (w : collaborators) (inp : inputs) : path :=
  child (parent (dem_path inp)) (String.append (stem (dem_path inp)) (stamp w)).

Definition main_routine (w : collaborators) (inp : inputs) : M string :=
  let save_dir := run_dir w inp in
  mkdir save_dir ;;
  emit (EvLog "logfile") ;;
  '(vis_path, vrt_path) <- visualize w inp save_dir ;;
  vector_path <- infer w inp save_dir vis_path ;;
  cleanup inp vis_path vrt_path ;;
  ret vector_path.

(** ** Notions used in the statements *)

(** A computation whose every run relates the final state to the initial
    one by [R], whatever its outcome. *)
Definition respects {A : Type} (R : state -> state -> Prop) (m : M A) : Prop :=
  forall s o s', m s = (o, s') -> R s s'.

(** The file system is left as it was. *)
Definition same_fs (s s' : state) : Prop := fs s' = fs s.

(** The log grows by events that satisfy [P]. *)
Definition logs_only (P : event -> Prop) (s s' : state) : Prop :=
  exists evs, log s' = log s ++ evs /\ Forall P evs.

Definition label_of (r : row) : cell :=
  match lookup "label" r with Some v => v | None => null end.

Definition geometry_of (r : row) : geometry :=
  match lookup "geometry" r with Some (CGeom g) => g | _ => Unrepresentable end.

Definition same_label (r1 r2 : row) : Prop :=
  cell_eqb (label_of r1) (label_of r2) = true.

(** The invariant of the output dataset: features of one label do not
    overlap, and every feature is a single polygon. *)
Definition resolved (d : frame) : Prop :=
  ForallOrdPairs (fun r1 r2 =>
                    same_label r1 r2 ->
                    geom_overlaps (geometry_of r1) (geometry_of r2) = false) d
  /\ Forall (fun r => single_polygon (geometry_of r)) d.

(** The rows of the group of key [k], the keys of the rows being [ks]. *)
Definition group_rows (d : frame) (ks : list cell) (k : cell) : frame :=
  map snd (filter (fun kr => cell_eqb (fst kr) k) (combine ks d)).

Definition other_cols (by_cols : list string) (d : frame) : list string :=
  filter (fun c => negb (existsb (String.eqb c) ("geometry"%string :: by_cols)))
         (columns d).

(** An output feature: label, one part of the group's union, and the
    aggregated columns. *)
Definition feature (k : cell) (others : row) (p : polygon) : row :=
  ("label"%string, k) :: ("geometry"%string, CGeom (Polygon p)) :: others.

(** The dataset found at [p]. *)
Definition dataset_at (p : path) (s : state) : option frame :=
  match find_file p (fs s) with
  | Some (mkFile _ (VectorFile _ d)) => Some d
  | _ => None
  end.

(** The number of features of the dataset at [p], if there is one. *)
Definition feature_count (p : path) (s : state) : option nat :=
  option_map (@List.length row) (dataset_at p s).

Inductive sublist {A : Type} : list A -> list A -> Prop :=
| sublist_nil : sublist [] []
| sublist_skip x l m : sublist l m -> sublist l (x :: m)
| sublist_keep x l m : sublist l m -> sublist (x :: l) (x :: m).

(** A detection record, as one line of a prediction file holds it. *)
Record detection : Type :=
  mkDetection { px0 : Q; py0 : Q; px1 : Q; py1 : Q;
                dlabel : string; dscore : Q;
                depsg : Q; dres : Q; dx_min : Q; dy_max : Q }.

Definition line_of (r : detection) : list cell :=
  [CNum (Fin (px0 r)); CNum (Fin (py0 r)); CNum (Fin (px1 r)); CNum (Fin (py1 r));
   CStr (dlabel r); CNum (Fin (dscore r));
   CNum (Fin (depsg r)); CNum (Fin (dres r)); CNum (Fin (dx_min r)); CNum (Fin (dy_max r))].

(** The world rectangle of a detection record, in the words of the
    specification: [x_world = x_min + res * x_pixel] and
    [y_world = y_max - res * y_pixel]. *)
Definition spec_world_box (r : detection) : rect :=
  mkRect (dx_min r + dres r * px0 r) (dy_max r - dres r * py0 r)
         (dx_min r + dres r * px1 r) (dy_max r - dres r * py1 r).

(** The geometry record of a detection record. *)
Definition spec_record (file : path) (keep_ml_paths : bool) (r : detection) : row :=
  [("label"%string, CStr (dlabel r)); ("score"%string, CNum (Fin (dscore r)));
   ("geometry"%string, CGeom (Polygon [spec_world_box r]))]
  ++ (if keep_ml_paths then [("prediction_path"%string, CStr (provenance file))] else []).

(** Binarisation in the words of the specification: value >= threshold
    gives 1, value < threshold gives 0. *)
Definition spec_binarize_value (threshold : Q) (v : float) : float :=
  if fge v (Fin threshold) then Fin 1
  else if flt v (Fin threshold) then Fin 0
  else v.

Definition is_one (v : float) : bool := feq v (Fin 1).

(** A dissolved group: its key, the union of its geometries and its
    aggregated columns. *)
Definition group : Type := cell * (geometry * row).

Definition group_features (g : group) : frame :=
  map (feature (fst g) (snd (snd g))) (parts (fst (snd g))).

(** [g] is the group of key [k] of the frame [d] with keys [ks]. *)
Definition is_group (by_cols : list string) (d : frame) (ks : list cell)
  (k : cell) (g : group) : Prop :=
  fst g = k
  /\ (exists gs, mapM geom (group_rows d ks k) = Returned gs
                 /\ unary_union gs = Some (fst (snd g)))
  /\ snd (snd g) = map (fun c => (c, agg_first c (group_rows d ks k)))
                       (other_cols by_cols d).

(** A frame of geometry records extracted from one prediction file. *)
Definition extracted (threshold : Q) (keep_ml_paths : bool) (d : frame) : Prop :=
  exists file lines t named,
    read_csv lines = Returned t
    /\ set_columns schema t = Returned named
    /\ detection_records file threshold keep_ml_paths named = Returned d.

(** Every row has the columns [cols], in this order. *)
Definition uniform (cols : list string) (d : frame) : Prop :=
  Forall (fun r => map fst r = cols) d.

(** The geometry record of one part traced from a raster. *)
Definition seg_record (label : string) (keep_ml_paths : bool) (file : path)
  (p : polygon) : row :=
  [("geometry"%string, CGeom (Polygon p)); ("label"%string, CStr label)]
  ++ (if keep_ml_paths then [("prediction_path"%string, CStr (provenance file))] else []).

(** The frame [seg_file] appends for a raster: the parts of the union of its
    foreground polygons. *)
Definition traced (threshold : Q) (keep_ml_paths : bool) (d : frame) : Prop :=
  exists label file image t u,
    unary_union (foreground_polygons (binarize image threshold) t) = Some u
    /\ d = map (seg_record label keep_ml_paths file) (parts u).

(** The constant key of [dissolve()] without a grouping column. *)
Definition zero_key : cell := CNum (Fin 0).

(** A row of the frame [data] after line 61. *)
Definition named (r : detection) : row := combine schema (line_of r).

(** A prediction file holding the records [recs]. *)
Definition lines_of (recs : list detection) : list (list cell) := map line_of recs.

(** Listing a directory and asking for a file's size. *)
Definition is_scan (e : event) : Prop :=
  match e with
  | EvGlob _ | EvStat _ => True
  | _ => False
  end.

(** The prediction files the loop of [object_detection_vectors] looks at:
    [file_path] of line 55, for every label and every listed file. *)
Definition prediction_files (f : filesystem) (d : dict) (path_to_predictions : path)
  : list path :=
  flat_map (fun item => map (joinpath path_to_predictions) (listing f (snd item) ".txt")) d.

Definition zero_bytes (f : filesystem) (p : path) : Prop :=
  exists x, find_file p f = Some x /\ st_size x = 0%N.

(** A computation that never reaches a behaviour the model leaves open. *)
Definition never_unspecified {A : Type} (m : M A) : Prop :=
  forall s s', m s <> (Unspecified, s').

(** A computation that raises whenever it starts from the file system [f]. *)
Definition raises_on {A : Type} (f : filesystem) (m : M A) : Prop :=
  forall s, fs s = f -> exists e s', m s = (Raised e, s').

(** No directory tree is removed. *)
Definition no_rmtree (e : event) : Prop :=
  match e with
  | EvRmtree _ => False
  | _ => True
  end.

(** The state in which the VISUALIZATIONS block of [main_routine] starts. *)
Definition prelude (w : collaborators) (inp : inputs) (s : state) : state :=
  mkState (fs s) (log s ++ [EvMkdir (run_dir w inp)] ++ [EvLog "logfile"]).

Definition supported (mode : string) : Prop :=
  mode = "object detection"%string \/ mode = "segmentation"%string.

(** The columns of a row after [row[c] = v]. *)
Definition add_key (c : string) (ks : list string) : list string :=
  if existsb (String.eqb c) ks then ks else ks ++ [c].

(** The columns of the geometry records of the two modes. *)
Definition od_columns (keep_ml_paths : bool) : list string :=
  ["label"; "score"; "geometry"]%string
  ++ (if keep_ml_paths then ["prediction_path"%string] else []).

Definition seg_columns (keep_ml_paths : bool) : list string :=
  ["geometry"; "label"]%string
  ++ (if keep_ml_paths then ["prediction_path"%string] else []).

(** The attributes of the features the resolver makes of a frame with the
    columns [cols]. *)
Definition resolved_attributes (cols : list string) : list string :=
  "label"%string
  :: filter (fun k => negb (String.eqb k "geometry"))
       (filter (fun c => negb (existsb (String.eqb c) ["geometry"; "label"]%string)) cols).

(** The attributes the specification gives a feature: the label and,
    optionally, the path of the prediction file. *)
Definition label_and_optional_path (r : row) : Prop :=
  attributes r = ["label"%string]
  \/ attributes r = ["label"; "prediction_path"]%string.

(** The two inference modes and their vectorisation entry points. *)
Inductive mode : Type := Detection | Segmentation.

Definition vectorize (m : mode) : dict -> Q -> bool -> M string :=
  match m with
  | Detection => object_detection_vectors
  | Segmentation => semantic_segmentation_vectors
  end.

(** The attributes of the features written in each mode. *)
Definition written_attributes (m : mode) (keep_ml_paths : bool) : list string :=
  match m with
  | Detection => ["label"; "score"]%string
  | Segmentation => ["label"%string]
  end ++ (if keep_ml_paths then ["prediction_path"%string] else []).

(** ** Notions used in the further properties *)

(** The name of the dataset each mode writes. *)
Definition output_name (m : mode) : string :=
  match m with
  | Detection => "object_detection.gpkg"%string
  | Segmentation => "semantic_segmentation.gpkg"%string
  end.

(** A prediction file that yields no geometry record at [threshold]: it has
    zero bytes, or it holds well-formed records none of which scores above
    the threshold. *)
Definition nothing_above (f : filesystem) (threshold : Q) (p : path) : Prop :=
  zero_bytes f p
  \/ exists size r0 recs,
       find_file p f = Some (mkFile size (Table (lines_of (r0 :: recs))))
       /\ Forall (fun r => dscore r <= threshold) (r0 :: recs).

(** The rasters the loop of [semantic_segmentation_vectors] opens. *)
Definition raster_files (f : filesystem) (d : dict) : list path :=
  flat_map (fun item => listing f (snd item) ".tif") d.

(** A raster file none of whose pixels reaches [threshold]. *)
Definition no_foreground (f : filesystem) (threshold : Q) (p : path) : Prop :=
  exists size r,
    find_file p f = Some (mkFile size (RasterFile r))
    /\ Forall (Forall (fun v => fge v (Fin threshold) = false)) (band r).

(** The inference step of each mode. *)
Definition run_aitlas (m : mode) : collaborators -> list string -> path -> M dict :=
  match m with
  | Detection => run_aitlas_object_detection
  | Segmentation => run_aitlas_segmentation
  end.

Definition mode_name (m : mode) : string :=
  match m with
  | Detection => "object detection"%string
  | Segmentation => "segmentation"%string
  end.

(** The same dictionary under other keys. *)
Definition rekey (f : string -> string) (d : dict) : dict :=
  map (fun item => (f (fst item), snd item)) d.

(** Nothing appears: a path that holds no file before holds none after. *)
Definition shrinks (s s' : state) : Prop :=
  forall p, find_file p (fs s) = None -> find_file p (fs s') = None.

(** A row without its geometry. *)
Definition without_geometry (r : row) : row := drop_cols ["geometry"%string] r.

(** ** Example runs *)

Module Example.

Definition barrow_dir : path := mkPath true ["data"; "run"; "predictions_barrow"]%string.
Definition ringfort_dir : path := mkPath true ["data"; "run"; "predictions_ringfort"]%string.

(** The record of the specification's coordinate example. *)
Definition det1 : detection :=
  mkDetection 10 10 20 20 "barrow" (9 # 10) 3794 (1 # 2) 100 200.

(** A detection of the neighbouring tile; its world box [107.5, 112.5] x
    [190, 195] covers half of the box of [det1]. *)
Definition det2 : detection :=
  mkDetection 0 10 10 20 "barrow" (9 # 10) 3794 (1 # 2) (215 # 2) 200.

(** A weak detection, and one of another label over the box of [det1]. *)
Definition det3 : detection :=
  mkDetection 0 0 4 4 "barrow" (3 # 10) 3794 (1 # 2) 300 200.
Definition det4 : detection :=
  mkDetection 10 10 20 20 "ringfort" (8 # 10) 3794 (1 # 2) 100 200.

Definition txt (lines : list (list cell)) : file := mkFile 64 (Table lines).
Definition empty_txt : file := mkFile 0 (Table []).

(** Two tiles, one detection each, the boxes overlapping by half. *)
Definition two_tiles : state :=
  mkState [ (child barrow_dir "tile_0.txt", txt [line_of det1]);
            (child barrow_dir "tile_1.txt", txt [line_of det2; line_of det3]);
            (child barrow_dir "tile_2.txt", empty_txt) ] [].

(** Two labels over the same ground. *)
Definition two_labels : state :=
  mkState [ (child barrow_dir "tile_0.txt", txt [line_of det1]);
            (child ringfort_dir "tile_0.txt", txt [line_of det4]) ] [].

(** No detection in any tile. *)
Definition no_detections : state :=
  mkState [ (child barrow_dir "tile_0.txt", empty_txt);
            (child barrow_dir "tile_1.txt", empty_txt);
            (child ringfort_dir "tile_0.txt", empty_txt) ] [].

(** A prediction file with nine fields a line. *)
Definition nine_fields : state :=
  mkState [ (child barrow_dir "tile_0.txt", txt [removelast (line_of det1)]) ] [].

Definition barrow_only : dict := [("barrow"%string, barrow_dir)].
Definition both_labels : dict :=
  [("barrow"%string, barrow_dir); ("ringfort"%string, ringfort_dir)].

(** A north-up tile of unit pixels with its upper left corner at (0, 3). *)
Definition north_up : affine := mkAffine 1 0 0 0 (-1) 3.

(** One row of three pixels: strong, weak, strong. *)
Definition ridge : raster :=
  mkRaster [[Fin (9 # 10); Fin (6 # 10); Fin (9 # 10)]] north_up (Some 3794%Z).

Definition one_raster : state :=
  mkState [ (child barrow_dir "tile_0_barrow.tif", mkFile 64 (RasterFile ridge)) ] [].

(** Three detections in a row; the middle one, of lower score, bridges the
    two others. *)
Definition left_box : detection :=
  mkDetection 0 0 10 10 "barrow" (9 # 10) 3794 1 0 100.
Definition bridge_box : detection :=
  mkDetection 8 0 22 10 "barrow" (6 # 10) 3794 1 0 100.
Definition right_box : detection :=
  mkDetection 20 0 30 10 "barrow" (9 # 10) 3794 1 0 100.

Definition three_boxes : state :=
  mkState [ (child barrow_dir "tile_0.txt",
             txt [line_of left_box; line_of bridge_box; line_of right_box]) ] [].

Definition od_output : path := mkPath true ["data"; "run"; "object_detection.gpkg"]%string.
Definition seg_output : path :=
  mkPath true ["data"; "run"; "semantic_segmentation.gpkg"]%string.

(** Two geometry records over the same ground, with different labels, and
    what the overlap resolver makes of them. *)
Definition overlapping_labels : frame :=
  [ spec_record (child barrow_dir "tile_0.txt") false det1;
    spec_record (child ringfort_dir "tile_0.txt") false det4 ].

Definition resolved_labels : frame :=
  Eval vm_compute in
    match resolve_overlaps overlapping_labels with
    | Returned out => out
    | _ => []
    end.

(** Collaborators that leave their files behind and never fail. *)
Definition touch (p : path) (f : filesystem) : filesystem := (p, mkFile 1 Opaque) :: f.

Definition collab : collaborators :=
  mkCollaborators
    "_20240101_120000" 8
    (fun in_file save_dir f =>
       let p := child save_dir "dem_validDataMask.gpkg" in (Returned p, touch p f))
    (fun _ _ f => (Returned [mkRect 0 0 1024 1024], f))
    (fun tiles _ refgrid f => (Returned tiles, touch refgrid f))
    (fun _ _ _ save_dir f =>
       let vis := child save_dir "slrm" in
       let vrt := child save_dir "slrm.vrt" in
       (Returned (vis, Some vrt), touch (child vis "tile_0.tif") (touch vrt f)))
    (fun _ _ f => (Returned tt, f))
    (fun label images_dir f =>
       (Returned (child (parent images_dir) ("predictions_" ++ label)), f))
    (fun label images_dir f =>
       (Returned (child (parent images_dir) ("predictions_" ++ label)), f))
    (fun _ vrt f => (Returned tt, touch vrt f)).

Definition dem : path := mkPath true ["data"; "dem.tif"]%string.

Definition with_dem : state := mkState [(dem, mkFile 4096 Opaque)] [].

(** A request for an inference mode that does not exist. *)
Definition wrong_mode : inputs :=
  mkInputs dem false "classification" ["barrow"%string] false false.

(** The state of the loop over the rasters of [one_raster] after its only
    raster. *)
Definition ridge_tif : path := child barrow_dir "tile_0_barrow.tif".

Definition ridge_run : outcome seg_acc * state :=
  Eval vm_compute in
    foldM (seg_file "barrow" (1 # 2) false) ([], None) ([] ++ [ridge_tif]) one_raster.

Definition ridge_acc : seg_acc :=
  match fst ridge_run with Returned a => a | _ => ([], None) end.

(** A request that names a label twice. *)
Definition repeated_labels : list string := ["barrow"; "ringfort"; "barrow"]%string.

Definition slrm_dir : path := mkPath true ["data"; "run"; "slrm"]%string.

Definition repeated_run : outcome dict * state :=
  Eval vm_compute in run_aitlas_object_detection collab repeated_labels slrm_dir with_dem.

Definition repeated_dict : dict :=
  match fst repeated_run with Returned d => d | _ => [] end.

(** A request for segmentation that names no label, with a visualisation
    at hand. *)
Definition no_labels : inputs := mkInputs dem true "segmentation" [] false false.

(** A request that keeps the predictions and the visualisations. *)
Definition keep_all : inputs :=
  mkInputs dem false "object detection" ["barrow"%string] true true.

(** A run directory with a visualisation tile, a mosaic beside the
    visualisation directory and a dataset. *)
Definition run_mosaic : path := mkPath true ["data"; "run"; "slrm.vrt"]%string.

Definition finished : state :=
  mkState [ (child slrm_dir "tile_0.tif", mkFile 1 Opaque);
            (run_mosaic, mkFile 1 Opaque);
            (od_output, mkFile 1 (VectorFile (Some 3794%Z) [])) ] [].

(** The same with the mosaic inside the visualisation directory. *)
Definition inner_mosaic : path := child slrm_dir "slrm.vrt".

(** A plain request for object detection that keeps nothing. *)
Definition plain_request : inputs :=
  mkInputs dem false "object detection" ["barrow"%string] false false.

Definition plain_run : outcome string * state :=
  Eval vm_compute in main_routine collab plain_request with_dem.

(** Two barrows far apart, the second with the lower score. *)
Definition far_box : detection :=
  mkDetection 500 500 510 510 "barrow" (6 # 10) 3794 1 0 1000.

Definition two_barrows : frame :=
  [ spec_record (child barrow_dir "tile_0.txt") true det1;
    spec_record (child barrow_dir "tile_7.txt") true far_box ].

Definition two_barrows_resolved : frame :=
  Eval vm_compute in
    match resolve_overlaps two_barrows with
    | Returned out => out
    | _ => []
    end.

End Example.

(** * Properties *)

(** ** Lists *)

Lemma FOP_filter {A : Type} (R : A -> A -> Prop) (P : A -> bool) (l : list A) :
  ForallOrdPairs R l -> ForallOrdPairs R (filter P l).
Proof.
  induction 1 as [|a l Ha Hl IH]; simpl; [constructor|].
  destruct (P a); [constructor|]; auto.
  rewrite Forall_forall in *. intros y Hy. apply filter_In in Hy. apply Ha, Hy.
Qed.

Lemma FOP_split {A : Type} (R : A -> A -> Prop) (P : A -> bool) (l : list A) :
  (forall a b, R a b -> R b a) ->
  ForallOrdPairs R l ->
  forall a b, In a (filter P l) -> In b (filter (fun x => negb (P x)) l) -> R a b.
Proof.
  intros Hsym. induction 1 as [|c l Hc Hl IH]; simpl; intros a b Ha Hb; [contradiction|].
  rewrite Forall_forall in Hc.
  destruct (P c) eqn:E; simpl in *.
  - destruct Ha as [<-|Ha]; [|now apply IH].
    apply filter_In in Hb. apply Hc, Hb.
  - destruct Hb as [<-|Hb]; [|now apply IH].
    apply filter_In in Ha. apply Hsym, Hc, Ha.
Qed.

Lemma FOP_impl {A : Type} (R R' : A -> A -> Prop) (l : list A) :
  (forall a b, R a b -> R' a b) -> ForallOrdPairs R l -> ForallOrdPairs R' l.
Proof.
  intros H. induction 1 as [|a l Ha Hl IH]; constructor; auto.
  eapply Forall_impl; [|exact Ha]. auto.
Qed.

Lemma FOP_map {A B : Type} (R : B -> B -> Prop) (f : A -> B) (l : list A) :
  ForallOrdPairs (fun a b => R (f a) (f b)) l -> ForallOrdPairs R (map f l).
Proof.
  induction 1 as [|a l Ha Hl IH]; simpl; constructor; auto.
  rewrite Forall_forall in *. intros y Hy. apply in_map_iff in Hy.
  destruct Hy as (x & <- & Hx). auto.
Qed.

Lemma FOP_app {A : Type} (R : A -> A -> Prop) (l m : list A) :
  ForallOrdPairs R l -> ForallOrdPairs R m ->
  (forall a b, In a l -> In b m -> R a b) ->
  ForallOrdPairs R (l ++ m).
Proof.
  induction 1 as [|a l Ha Hl IH]; simpl; intros Hm Hlm; auto.
  constructor.
  - rewrite Forall_forall in *. intros y Hy. apply in_app_or in Hy.
    destruct Hy; [auto | apply Hlm; simpl; auto].
  - apply IH; auto.
Qed.

Lemma FOP_concat {A : Type} (R : A -> A -> Prop) (ls : list (list A)) :
  Forall (ForallOrdPairs R) ls ->
  ForallOrdPairs (fun l m => forall a b, In a l -> In b m -> R a b) ls ->
  ForallOrdPairs R (concat ls).
Proof.
  intros Hin Hacross. induction Hacross as [|l ls Hl Hls IH]; simpl; [constructor|].
  inversion Hin; subst. apply FOP_app; auto.
  intros a b Ha Hb. apply in_concat in Hb. destruct Hb as (m & Hm & Hb).
  rewrite Forall_forall in Hl. eapply Hl; eauto.
Qed.

Lemma Forall2_In_r {A B : Type} (Rel : A -> B -> Prop) (l : list A) (m : list B) :
  Forall2 Rel l m -> forall y, In y m -> exists x, In x l /\ Rel x y.
Proof.
  induction 1 as [|a x l m Hax Hlm IH]; simpl; intros y Hy; [contradiction|].
  destruct Hy as [<-|Hy]; [eauto|].
  destruct (IH y Hy) as (b & ? & ?). eauto.
Qed.

Lemma Forall2_In_l {A B : Type} (Rel : A -> B -> Prop) (l : list A) (m : list B) :
  Forall2 Rel l m -> forall x, In x l -> exists y, In y m /\ Rel x y.
Proof.
  induction 1 as [|a x l m Hax Hlm IH]; simpl; intros y Hy; [contradiction|].
  destruct Hy as [<-|Hy]; [eauto|].
  destruct (IH y Hy) as (b & ? & ?). eauto.
Qed.

Lemma FOP_Forall2 {A B : Type} (S : A -> A -> Prop) (R : B -> B -> Prop)
  (Rel : A -> B -> Prop) (l : list A) (m : list B) :
  (forall a b x y, Rel a x -> Rel b y -> S a b -> R x y) ->
  Forall2 Rel l m -> ForallOrdPairs S l -> ForallOrdPairs R m.
Proof.
  intros Hstep. induction 1 as [|a x l m Hax Hlm IH]; intros HS; [constructor|].
  inversion HS; subst. constructor; auto.
  rewrite Forall_forall in *. intros y Hy.
  destruct (Forall2_In_r _ _ _ Hlm _ Hy) as (b & Hb & Hby). eauto.
Qed.

(** ** Connected components *)

Section ComponentsFacts.

Context {A : Type}.
Variable adj : A -> A -> bool.

Lemma apart_sym (c1 c2 : list A) : apart adj c1 c2 -> apart adj c2 c1.
Proof. intros H x y Hx Hy. destruct (H y x Hy Hx). auto. Qed.

Lemma partition_concat_perm (P : list A -> bool) (comps : list (list A)) :
  Permutation (concat (fst (partition P comps)) ++ concat (snd (partition P comps)))
              (concat comps).
Proof.
  induction comps as [|c comps IH]; simpl; [constructor|].
  destruct (partition P comps) as [near far]; simpl in *.
  destruct (P c); simpl.
  - rewrite <- app_assoc. now apply Permutation_app_head.
  - rewrite Permutation_app_swap_app. now apply Permutation_app_head.
Qed.

Lemma absorb_perm (x : A) (comps : list (list A)) :
  Permutation (concat (absorb adj x comps)) (x :: concat comps).
Proof.
  unfold absorb. pose proof (partition_concat_perm (touches adj x) comps) as H.
  destruct (partition (touches adj x) comps) as [near far]; simpl in *.
  now constructor.
Qed.

(** Every element lies in exactly one component. *)
Lemma components_perm (l : list A) : Permutation (concat (components adj l)) l.
Proof.
  induction l as [|x l IH]; simpl; [constructor|].
  rewrite absorb_perm. now constructor.
Qed.

Lemma components_In (l : list A) (x : A) :
  In x l <-> exists c, In c (components adj l) /\ In x c.
Proof.
  split.
  - intros H. apply (Permutation_in _ (Permutation_sym (components_perm l))) in H.
    apply in_concat in H. destruct H as (c & ? & ?). eauto.
  - intros (c & Hc & Hx). apply (Permutation_in _ (components_perm l)).
    apply in_concat. eauto.
Qed.

Lemma touches_false (x : A) (c : list A) :
  touches adj x c = false -> forall y, In y c -> adj x y = false /\ adj y x = false.
Proof.
  unfold touches. intros H y Hy.
  destruct (adj x y || adj y x) eqn:E.
  - assert (existsb (fun y => adj x y || adj y x) c = true) by (apply existsb_exists; eauto).
    congruence.
  - now apply orb_false_elim in E.
Qed.

(** Elements of different components are not adjacent. *)
Lemma components_apart (l : list A) :
  ForallOrdPairs (apart adj) (components adj l).
Proof.
  induction l as [|x l IH]; simpl; [constructor|].
  unfold absorb. rewrite partition_as_filter. constructor.
  - rewrite Forall_forall. intros f Hf a b Ha Hb.
    destruct Ha as [<-|Ha].
    + apply filter_In in Hf. destruct Hf as [_ Hf].
      apply negb_true_iff in Hf. eapply touches_false; eauto.
    + apply in_concat in Ha. destruct Ha as (n & Hn & Ha).
      eapply (FOP_split (apart adj) (touches adj x)); eauto using apart_sym.
  - now apply FOP_filter.
Qed.

Lemma linked_incl (c d : list A) (x y : A) :
  incl c d -> linked adj c x y -> linked adj d x y.
Proof.
  intros Hcd. induction 1.
  - apply linked_refl. auto.
  - eapply linked_step; eauto.
Qed.

Lemma linked_trans (c : list A) (x y z : A) :
  linked adj c x y -> linked adj c y z -> linked adj c x z.
Proof.
  induction 1; auto. intros. eapply linked_step; eauto.
Qed.

Lemma linked_sym (c : list A) (x y : A) :
  linked adj c x y -> linked adj c y x.
Proof.
  induction 1 as [x Hx | x y z Hx Hy Hxy Hyz IH].
  - now apply linked_refl.
  - eapply linked_trans; [exact IH|].
    eapply linked_step; [exact Hy | exact Hx | tauto | now apply linked_refl].
Qed.

Lemma touches_true (x : A) (c : list A) :
  touches adj x c = true -> exists y, In y c /\ (adj x y = true \/ adj y x = true).
Proof.
  unfold touches. intros H. apply existsb_exists in H.
  destruct H as (y & Hy & H). apply orb_true_iff in H. eauto.
Qed.

Lemma absorb_connected (x : A) (comps : list (list A)) :
  Forall (connected adj) comps -> Forall (connected adj) (absorb adj x comps).
Proof.
  intros H. unfold absorb. rewrite partition_as_filter. constructor.
  - split; [discriminate|].
    set (N := x :: concat (filter (touches adj x) comps)).
    assert (Hx : forall a, In a N -> linked adj N x a).
    { intros a [<-|Ha]; [apply linked_refl; left; reflexivity|].
      apply in_concat in Ha. destruct Ha as (n & Hn & Ha).
      apply filter_In in Hn. destruct Hn as [Hn Ht].
      destruct (touches_true _ _ Ht) as (y & Hy & Hxy).
      rewrite Forall_forall in H. destruct (H n Hn) as [_ Hc].
      assert (Hsub : incl n N).
      { intros z Hz. right. apply in_concat. exists n. split; auto.
        apply filter_In. auto. }
      eapply linked_step; [left; reflexivity | apply Hsub, Hy | exact Hxy |].
      eapply linked_incl; eauto. }
    intros a b Ha Hb. eapply linked_trans; [apply linked_sym, Hx, Ha | apply Hx, Hb].
  - rewrite Forall_forall in *. intros c Hc. apply filter_In in Hc. apply H, Hc.
Qed.

(** Every component is connected. *)
Lemma components_connected (l : list A) :
  Forall (connected adj) (components adj l).
Proof.
  induction l as [|x l IH]; simpl; [constructor|]. now apply absorb_connected.
Qed.

End ComponentsFacts.

(** ** Rectangles *)

Lemma Qltb_true (x y : Q) : Qltb x y = true <-> x < y.
Proof.
  unfold Qltb. rewrite negb_true_iff. split; intros H.
  - apply Qnot_le_lt. intros Hle. apply Qle_bool_iff in Hle. congruence.
  - destruct (Qle_bool y x) eqn:E; [|reflexivity].
    apply Qle_bool_iff in E. exfalso. eapply Qlt_not_le; eauto.
Qed.

Lemma overlaps_joins (r s : rect) : overlaps r s = true -> joins r s = true.
Proof.
  unfold overlaps, joins. intros H. apply andb_true_iff in H. destruct H as [Hx Hy].
  rewrite Hx. simpl. rewrite andb_true_r.
  apply Qltb_true in Hx, Hy. apply andb_true_iff.
  split; apply Qle_bool_iff; now apply Qlt_le_weak.
Qed.

Lemma apart_no_overlap (p q : polygon) :
  apart joins p q -> geom_overlaps (Polygon p) (Polygon q) = false.
Proof.
  intros H. unfold geom_overlaps, rects. simpl. rewrite !app_nil_r.
  destruct (existsb _ p) eqn:E; [|reflexivity].
  apply existsb_exists in E. destruct E as (r & Hr & E).
  apply existsb_exists in E. destruct E as (s & Hs & E).
  apply overlaps_joins in E. destruct (H r s Hr Hs). congruence.
Qed.

Lemma parts_assemble (ps : list polygon) : parts (assemble ps) = ps.
Proof. destruct ps as [|p [|q ps]]; reflexivity. Qed.

(** ** The outcome monad *)

Lemma mapM_Returned {A B : Type} (f : A -> outcome B) (l : list A) (out : list B) :
  mapM f l = Returned out -> Forall2 (fun x y => f x = Returned y) l out.
Proof.
  revert out. induction l as [|x l IH]; simpl; intros out H.
  - injection H as <-. constructor.
  - destruct (f x) as [y| |] eqn:E; try discriminate.
    destruct (mapM f l) as [ys| |]; try discriminate.
    injection H as <-. constructor; auto.
Qed.

Lemma mapM_map {A B : Type} (f : A -> outcome B) (g : A -> B) (l : list A) :
  (forall x, In x l -> f x = Returned (g x)) -> mapM f l = Returned (map g l).
Proof.
  induction l as [|x l IH]; simpl; intros H; [reflexivity|].
  rewrite (H x) by auto. rewrite IH by auto. reflexivity.
Qed.

Lemma mapM_defined {A B : Type} (f : A -> outcome B) (l : list A) :
  (forall x, f x <> Unspecified) -> mapM f l <> Unspecified.
Proof.
  intros H. induction l as [|x l IH]; simpl; [discriminate|].
  specialize (H x). destruct (f x); try congruence.
  destruct (mapM f l); congruence.
Qed.

(** ** The overlap resolver, unfolded *)

Lemma dissolve_group_inv (by_cols : list string) (d : frame) (ks : list cell)
  (k : cell) (ir : cell * row) :
  dissolve_group by_cols d ks k = Returned ir ->
  exists g, is_group by_cols d ks k g
            /\ ir = (fst g, ("geometry"%string, CGeom (fst (snd g))) :: snd (snd g)).
Proof.
  unfold dissolve_group. fold (group_rows d ks k). fold (other_cols by_cols d).
  simpl. destruct (mapM geom (group_rows d ks k)) as [gs| |] eqn:E; try discriminate.
  destruct (unary_union gs) as [u|] eqn:U; try discriminate.
  intros H. injection H as <-.
  exists (k, (u, map (fun c => (c, agg_first c (group_rows d ks k))) (other_cols by_cols d))).
  split; [|reflexivity]. split; [reflexivity|]. split; [|reflexivity]. eauto.
Qed.

Lemma Forall2_collect {A B C : Type} (Q : A -> C -> Prop) (F : C -> B)
  (l : list A) (m : list B) :
  Forall2 (fun a b => exists c, Q a c /\ b = F c) l m ->
  exists cs, Forall2 Q l cs /\ m = map F cs.
Proof.
  induction 1 as [|a b l m (c & Hc & ->) _ (cs & Hcs & ->)].
  - exists []. split; constructor.
  - exists (c :: cs). split; [constructor; auto | reflexivity].
Qed.

Lemma explode_dissolved (groups : list group) :
  explode (map (fun g : group =>
                  (fst g, ("geometry"%string, CGeom (fst (snd g))) :: snd (snd g))) groups)
  = Returned (concat (map (fun g : group =>
                map (fun p => (fst g, ("geometry"%string, CGeom (Polygon p)) :: snd (snd g)))
                    (parts (fst (snd g)))) groups)).
Proof.
  unfold explode.
  rewrite (mapM_map _ (fun ir : cell * row =>
             map (fun p => (fst ir, set_col "geometry" (CGeom (Polygon p)) (snd ir)))
                 (parts (geometry_of (snd ir))))).
  - simpl. rewrite map_map. reflexivity.
  - intros ir Hir. apply in_map_iff in Hir. destruct Hir as (g & <- & _). reflexivity.
Qed.

Lemma dissolve_inv (by_col : option string) (d : frame) (dis : indexed_frame) :
  dissolve by_col d = Returned dis ->
  exists ks groups,
    mapM (fun r => match by_col with
                   | Some c => key_of c r
                   | None => Returned (CNum (Fin 0))
                   end) d = Returned ks
    /\ Forall2 (is_group (match by_col with Some c => [c] | None => [] end) d ks)
               (group_keys ks) groups
    /\ dis = map (fun g : group =>
                    (fst g, ("geometry"%string, CGeom (fst (snd g))) :: snd (snd g))) groups.
Proof.
  unfold dissolve. simpl.
  destruct (mapM _ d) as [ks| |] eqn:K; try discriminate.
  destruct (mapM geom d) as [gs| |]; try discriminate.
  intros H. apply mapM_Returned in H.
  assert (H' : Forall2 (fun k ir => exists g,
                 is_group (match by_col with Some c => [c] | None => [] end) d ks k g
                 /\ ir = (fun g : group =>
                    (fst g, ("geometry"%string, CGeom (fst (snd g))) :: snd (snd g))) g)
               (group_keys ks) dis).
  { eapply Forall2_impl; [|exact H]. intros k ir Hk. now apply dissolve_group_inv. }
  apply Forall2_collect in H'. destruct H' as (groups & Hg & ->).
  exists ks, groups. auto.
Qed.

(** The output of the resolver: the features of the groups of the sorted
    distinct labels. *)
Lemma resolve_overlaps_inv (d out : frame) :
  resolve_overlaps d = Returned out ->
  exists ks groups,
    mapM (key_of "label") d = Returned ks
    /\ Forall2 (is_group ["label"%string] d ks) (group_keys ks) groups
    /\ out = concat (map group_features groups).
Proof.
  unfold resolve_overlaps. simpl.
  destruct (dissolve (Some "label"%string) d) as [dis| |] eqn:D; try discriminate.
  apply dissolve_inv in D. destruct D as (ks & groups & Hks & Hg & ->).
  rewrite explode_dissolved. intros H. injection H as <-.
  exists ks, groups. split; [exact Hks|]. split; [exact Hg|].
  unfold reset_index. rewrite concat_map, map_map.
  f_equal. apply map_ext. intros g. unfold group_features. rewrite map_map. reflexivity.
Qed.

(** ** Group keys *)

Lemma Qeq_bool_sym (x y : Q) : Qeq_bool x y = Qeq_bool y x.
Proof.
  destruct (Qeq_bool x y) eqn:E; symmetry.
  - apply Qeq_bool_iff. symmetry. now apply Qeq_bool_iff.
  - destruct (Qeq_bool y x) eqn:F; [|reflexivity].
    apply Qeq_bool_iff in F. symmetry in F. apply Qeq_bool_iff in F. congruence.
Qed.

Lemma cell_eqb_sym (a b : cell) : cell_eqb a b = cell_eqb b a.
Proof.
  destruct a as [[x|]| |], b as [[y|]| |]; simpl; auto using Qeq_bool_sym, String.eqb_sym.
Qed.

Lemma insert_sorted_In (k x : cell) (l : list cell) :
  In x (insert_sorted k l) <-> x = k \/ In x l.
Proof.
  induction l as [|h t IH]; simpl.
  - intuition.
  - destruct (cell_leb k h); simpl; rewrite ?IH; intuition.
Qed.

Lemma sort_keys_In (x : cell) (l : list cell) : In x (sort_keys l) <-> In x l.
Proof.
  induction l as [|h t IH]; simpl; [tauto|].
  rewrite insert_sorted_In, IH. intuition.
Qed.

Lemma FOP_insert_sorted (R : cell -> cell -> Prop) (k : cell) (l : list cell) :
  (forall a b, R a b -> R b a) ->
  Forall (R k) l -> ForallOrdPairs R l -> ForallOrdPairs R (insert_sorted k l).
Proof.
  intros Hsym Hk Hl. induction Hl as [|h t Hh Ht IH]; simpl.
  - constructor; constructor.
  - inversion Hk; subst. destruct (cell_leb k h).
    + constructor; [constructor; auto | constructor; auto].
    + constructor; [|auto].
      rewrite Forall_forall in *. intros x Hx. apply insert_sorted_In in Hx.
      destruct Hx as [->|Hx]; auto.
Qed.

Lemma FOP_sort_keys (R : cell -> cell -> Prop) (l : list cell) :
  (forall a b, R a b -> R b a) ->
  ForallOrdPairs R l -> ForallOrdPairs R (sort_keys l).
Proof.
  intros Hsym. induction 1 as [|h t Hh Ht IH]; simpl; [constructor|].
  apply FOP_insert_sorted; [exact Hsym | | exact IH].
  rewrite Forall_forall in *. intros x Hx. rewrite sort_keys_In in Hx. auto.
Qed.

Lemma distinct_In (x : cell) (l : list cell) : In x (distinct l) -> In x l.
Proof.
  revert x. induction l as [|h t IH]; simpl; intros x; [tauto|].
  intros [->|H]; auto. apply filter_In in H. right. apply IH, H.
Qed.

Lemma distinct_FOP (l : list cell) :
  ForallOrdPairs (fun a b => cell_eqb a b = false) (distinct l).
Proof.
  induction l as [|h t IH]; simpl; constructor.
  - rewrite Forall_forall. intros x Hx. apply filter_In in Hx.
    destruct Hx as [_ Hx]. now apply negb_true_iff in Hx.
  - now apply FOP_filter.
Qed.

(** The keys of the groups are pairwise different. *)
Lemma group_keys_FOP (ks : list cell) :
  ForallOrdPairs (fun a b => cell_eqb a b = false) (group_keys ks).
Proof.
  unfold group_keys. apply FOP_sort_keys.
  - intros a b. now rewrite cell_eqb_sym.
  - apply distinct_FOP.
Qed.

Lemma group_keys_In (k : cell) (ks : list cell) :
  In k (group_keys ks) -> In k ks /\ isnull k = false.
Proof.
  unfold group_keys. intros H. rewrite sort_keys_In in H.
  apply distinct_In in H. rewrite filter_In in H.
  destruct H as [H N]. now apply negb_true_iff in N.
Qed.

(** ** The invariant of the resolver's output *)

Lemma unary_union_inv (gs : list geometry) (u : geometry) :
  unary_union gs = Some u ->
  forallb representable gs = true
  /\ parts u = components joins (concat (map rects gs)).
Proof.
  unfold unary_union. destruct (forallb representable gs); [|discriminate].
  intros H. injection H as <-. now rewrite parts_assemble.
Qed.

Lemma label_of_feature (k : cell) (others : row) (p : polygon) :
  label_of (feature k others p) = k.
Proof. reflexivity. Qed.

Lemma geometry_of_feature (k : cell) (others : row) (p : polygon) :
  geometry_of (feature k others p) = Polygon p.
Proof. reflexivity. Qed.

Lemma is_group_parts (by_cols : list string) (d : frame) (ks : list cell)
  (k : cell) (g : group) :
  is_group by_cols d ks k g ->
  exists gs, mapM geom (group_rows d ks k) = Returned gs
             /\ parts (fst (snd g)) = components joins (concat (map rects gs)).
Proof.
  intros (_ & (gs & Hgs & U) & _). apply unary_union_inv in U. exists gs. tauto.
Qed.

Lemma resolve_overlaps_resolved (d out : frame) :
  resolve_overlaps d = Returned out -> resolved out.
Proof.
  intros H. apply resolve_overlaps_inv in H.
  destruct H as (ks & groups & _ & Hg & ->). split.
  - apply FOP_concat.
    + rewrite Forall_forall. intros fs Hfs. apply in_map_iff in Hfs.
      destruct Hfs as (g & <- & Hin).
      destruct (Forall2_In_r _ _ _ Hg _ Hin) as (k & _ & Hk).
      apply is_group_parts in Hk. destruct Hk as (gs & _ & Hp).
      unfold group_features. apply FOP_map. rewrite Hp.
      eapply FOP_impl; [|apply components_apart].
      intros p q Hpq _. rewrite !geometry_of_feature. now apply apart_no_overlap.
    + apply FOP_map.
      eapply (FOP_Forall2 (fun a b => cell_eqb a b = false)); [|exact Hg|apply group_keys_FOP].
      intros k1 k2 g1 g2 (<- & _) (<- & _) Hne r1 r2 H1 H2 Hsame.
      unfold group_features in H1, H2. apply in_map_iff in H1, H2.
      destruct H1 as (p1 & <- & _), H2 as (p2 & <- & _).
      unfold same_label in Hsame. rewrite !label_of_feature in Hsame. congruence.
  - rewrite Forall_forall. intros r Hr. apply in_concat in Hr.
    destruct Hr as (fs & Hfs & Hr). apply in_map_iff in Hfs.
    destruct Hfs as (g & <- & Hin).
    destruct (Forall2_In_r _ _ _ Hg _ Hin) as (k & _ & Hk).
    apply is_group_parts in Hk. destruct Hk as (gs & _ & Hp).
    unfold group_features in Hr. apply in_map_iff in Hr. destruct Hr as (p & <- & Hp').
    rewrite geometry_of_feature. exists p. split; [reflexivity|].
    rewrite Hp in Hp'.
    pose proof (components_connected joins (concat (map rects gs))) as Hc.
    rewrite Forall_forall in Hc. now apply Hc.
Qed.

(** ** The state monad *)

Lemma bind_Returned {A B : Type} (m : M A) (k : A -> M B) (s s' : state) (b : B) :
  bind m k s = (Returned b, s') ->
  exists a s1, m s = (Returned a, s1) /\ k a s1 = (Returned b, s').
Proof.
  simpl. destruct (m s) as [[a| |] s1]; try discriminate. eauto.
Qed.

Lemma lift_Returned {A : Type} (o : outcome A) (s s' : state) (a : A) :
  lift o s = (Returned a, s') -> o = Returned a /\ s' = s.
Proof. unfold lift. intros H. injection H as -> ->. auto. Qed.

Lemma ret_Returned {A : Type} (x a : A) (s s' : state) :
  (ret x : M A) s = (Returned a, s') -> a = x /\ s' = s.
Proof. simpl. intros H. injection H as -> ->. auto. Qed.

Tactic Notation "inv_bind" hyp(H) "as" ident(a) ident(s1) ident(H1) :=
  apply bind_Returned in H; destruct H as (a & s1 & H1 & H).

Lemma foldM_inv {A S : Type} (f : S -> A -> M S) (I : S -> Prop) :
  (forall acc x s acc' s', I acc -> f acc x s = (Returned acc', s') -> I acc') ->
  forall l acc s acc' s',
    I acc -> foldM f acc l s = (Returned acc', s') -> I acc'.
Proof.
  intros Hf. induction l as [|x l IH]; intros acc s acc' s' HI H.
  - apply ret_Returned in H. destruct H as [-> _]. exact HI.
  - simpl foldM in H. inv_bind H as acc1 s1 H1. eauto.
Qed.

Section Respects.

Variable R : state -> state -> Prop.
Hypothesis R_refl : forall s, R s s.
Hypothesis R_trans : forall s1 s2 s3, R s1 s2 -> R s2 s3 -> R s1 s3.

Lemma respects_ret {A : Type} (a : A) : respects R (ret a : M A).
Proof. intros s o s' H. injection H as _ <-. auto. Qed.

Lemma respects_lift {A : Type} (o : outcome A) : respects R (lift o).
Proof. intros s o' s' H. injection H as _ <-. auto. Qed.

Lemma respects_bind {A B : Type} (m : M A) (k : A -> M B) :
  respects R m -> (forall a, respects R (k a)) -> respects R (bind m k).
Proof.
  intros Hm Hk s o s' H. simpl in H.
  destruct (m s) as [o1 s1] eqn:E. apply Hm in E.
  destruct o1 as [a| |].
  - apply Hk in H. eauto.
  - injection H as _ <-. exact E.
  - injection H as _ <-. exact E.
Qed.

Lemma respects_foldM {A S : Type} (f : S -> A -> M S) (l : list A) :
  (forall acc x, respects R (f acc x)) -> forall acc, respects R (foldM f acc l).
Proof.
  intros Hf. induction l as [|x l IH]; intros acc; simpl.
  - apply respects_ret.
  - apply respects_bind; auto.
Qed.

Lemma respects_get_fs : respects R get_fs.
Proof. intros s o s' H. injection H as _ <-. auto. Qed.

End Respects.

Lemma same_fs_refl (s : state) : same_fs s s.
Proof. reflexivity. Qed.

Lemma same_fs_trans (s1 s2 s3 : state) : same_fs s1 s2 -> same_fs s2 s3 -> same_fs s1 s3.
Proof. unfold same_fs. congruence. Qed.

Lemma logs_only_refl (P : event -> Prop) (s : state) : logs_only P s s.
Proof. exists []. split; [now rewrite app_nil_r | constructor]. Qed.

Lemma logs_only_trans (P : event -> Prop) (s1 s2 s3 : state) :
  logs_only P s1 s2 -> logs_only P s2 s3 -> logs_only P s1 s3.
Proof.
  intros (e1 & H1 & F1) (e2 & H2 & F2). exists (e1 ++ e2). split.
  - rewrite H2, H1. now rewrite app_assoc.
  - apply Forall_app. auto.
Qed.

Lemma emit_same_fs (e : event) : respects same_fs (emit e).
Proof. intros s o s' H. injection H as _ <-. reflexivity. Qed.

Lemma emit_logs_only (P : event -> Prop) (e : event) :
  P e -> respects (logs_only P) (emit e).
Proof.
  intros He s o s' H. injection H as _ <-. exists [e]. split; [reflexivity|].
  constructor; auto.
Qed.

Create HintDb adaf.
#[local] Hint Resolve same_fs_refl same_fs_trans logs_only_refl logs_only_trans : adaf.
#[local] Hint Resolve respects_ret respects_lift respects_get_fs emit_same_fs : adaf.

Ltac respects_step :=
  match goal with
  | |- respects _ (bind _ _) => apply respects_bind; eauto with adaf; intros
  | |- respects _ (ret _) => apply respects_ret; eauto with adaf
  | |- respects _ (lift _) => apply respects_lift; eauto with adaf
  | |- respects _ (raise _) => apply respects_lift; eauto with adaf
  | |- respects _ get_fs => apply respects_get_fs; eauto with adaf
  | |- respects _ (foldM _ _ _) => apply respects_foldM; eauto with adaf; intros
  | |- respects _ (match ?x with _ => _ end) => destruct x
  | |- respects _ (if ?x then _ else _) => destruct x
  | |- respects _ _ => solve [eauto with adaf]
  end.

(** The loops of the two entry points only read the file system. *)

Lemma glob_same_fs (dir : path) (suffix : string) : respects same_fs (glob dir suffix).
Proof. unfold glob. repeat respects_step. Qed.

Lemma os_stat_size_same_fs (p : path) : respects same_fs (os_stat_size p).
Proof. unfold os_stat_size. repeat respects_step. Qed.

Lemma pd_read_csv_same_fs (p : path) : respects same_fs (pd_read_csv p).
Proof. unfold pd_read_csv. repeat respects_step. Qed.

Lemma open_raster_same_fs (p : path) : respects same_fs (open_raster p).
Proof. unfold open_raster. repeat respects_step. Qed.

#[local] Hint Resolve glob_same_fs os_stat_size_same_fs pd_read_csv_same_fs
  open_raster_same_fs : adaf.

Lemma od_file_same_fs ptp t k acc file : respects same_fs (od_file ptp t k acc file).
Proof. unfold od_file. repeat respects_step. Qed.

Lemma od_label_same_fs ptp t k acc item : respects same_fs (od_label ptp t k acc item).
Proof.
  unfold od_label. respects_step. respects_step. apply od_file_same_fs.
Qed.

Lemma seg_file_same_fs label t k acc file : respects same_fs (seg_file label t k acc file).
Proof. unfold seg_file. repeat respects_step. Qed.

Lemma seg_label_same_fs t k acc item : respects same_fs (seg_label t k acc item).
Proof.
  unfold seg_label. destruct item as [label dir]. respects_step. respects_step.
  apply seg_file_same_fs.
Qed.

(** ** What [object_detection_vectors] returns and writes *)

Lemma pd_read_csv_inv (p : path) (s s' : state) (tab : list (list cell)) :
  pd_read_csv p s = (Returned tab, s') -> exists lines, read_csv lines = Returned tab.
Proof.
  unfold pd_read_csv. cbn [bind M_monad emit get_fs fs].
  destruct (find_file p (fs s)) as [[size [lines| | |]]|]; try discriminate.
  unfold lift. intros H. injection H as H _. eauto.
Qed.

Lemma od_file_extracted ptp t k (acc acc' : od_acc) file s s' :
  Forall (extracted t k) (fst acc) ->
  od_file ptp t k acc file s = (Returned acc', s') ->
  Forall (extracted t k) (fst acc').
Proof.
  intros HI H. unfold od_file in H. inv_bind H as size s1 Hsize.
  destruct (negb (size =? 0)%N).
  - inv_bind H as tab s2 Hread. inv_bind H as named s3 Hcols.
    apply lift_Returned in Hcols. destruct Hcols as [Hcols ->].
    inv_bind H as crs s4 Hcrs. inv_bind H as d s5 Hrec.
    apply lift_Returned in Hrec. destruct Hrec as [Hrec ->].
    destruct (0 <? List.length d)%nat; apply ret_Returned in H; destruct H as [-> _];
      simpl; auto.
    apply Forall_app. split; auto. constructor; [|constructor].
    destruct (pd_read_csv_inv _ _ _ _ Hread) as (lines & Hlines).
    exists file, lines, tab, named. auto.
  - apply ret_Returned in H. destruct H as [-> _]. exact HI.
Qed.

Lemma od_label_extracted ptp t k (acc acc' : od_acc) item s s' :
  Forall (extracted t k) (fst acc) ->
  od_label ptp t k acc item s = (Returned acc', s') ->
  Forall (extracted t k) (fst acc').
Proof.
  intros HI H. unfold od_label in H. inv_bind H as file_list s1 Hglob.
  eapply (foldM_inv _ (fun acc : od_acc => Forall (extracted t k) (fst acc))); eauto.
  intros. eapply od_file_extracted; eauto.
Qed.

Lemma Bool_eqb_refl (b : bool) : Bool.eqb b b = true.
Proof. destruct b; reflexivity. Qed.

Lemma list_eqb_refl (l : list string) : list_eqb String.eqb l l = true.
Proof. induction l; simpl; [reflexivity|]. now rewrite String.eqb_refl. Qed.

Lemma path_eqb_refl (p : path) : path_eqb p p = true.
Proof. unfold path_eqb. now rewrite Bool_eqb_refl, list_eqb_refl. Qed.

Lemma to_file_inv (p : path) (crs : option Z) (d : frame) (s s' : state) (u : unit) :
  to_file p crs d s = (Returned u, s') ->
  s' = mkState ((p, mkFile 1 (VectorFile crs d)) :: remove_file p (fs s))
               (log s ++ [EvWrite p]).
Proof. unfold to_file. simpl. intros H. injection H as _ <-. reflexivity. Qed.

(** The state after a dataset [d] was written at [out] in state [s1]. *)
Lemma od_vectors_inv dict t k s p s' :
  object_detection_vectors dict t k s = (Returned p, s') ->
  exists first_dir, first (values dict) = Returned first_dir
  /\ ((p = ""%string /\ fs s' = fs s)
      \/ exists crs appended d s1,
           Forall (extracted t k) appended
           /\ resolve_overlaps (concat appended) = Returned d
           /\ fs s1 = fs s
           /\ s' = mkState ((child (parent first_dir) "object_detection.gpkg",
                             mkFile 1 (VectorFile crs d))
                            :: remove_file (child (parent first_dir) "object_detection.gpkg")
                                           (fs s1))
                           (log s1 ++ [EvWrite (child (parent first_dir) "object_detection.gpkg")])
           /\ p = path_str (child (parent first_dir) "object_detection.gpkg")).
Proof.
  intros H. unfold object_detection_vectors in H. inv_bind H as first_dir s0 Hfirst.
  apply lift_Returned in Hfirst. destruct Hfirst as [Hfirst ->].
  exists first_dir. split; [exact Hfirst|].
  inv_bind H as acc s1 Hloop. destruct acc as [appended crs].
  assert (Hfs : fs s1 = fs s).
  { eapply (respects_foldM same_fs same_fs_refl same_fs_trans); [|exact Hloop].
    intros. apply od_label_same_fs. }
  assert (Hex : Forall (extracted t k) appended).
  { change appended with (fst (appended, crs)).
    eapply (foldM_inv _ (fun acc : od_acc => Forall (extracted t k) (fst acc)));
      [| |exact Hloop]; [|constructor].
    intros. eapply od_label_extracted; eauto. }
  destruct appended as [|d0 appended].
  - apply ret_Returned in H. destruct H as [-> ->]. left. auto.
  - inv_bind H as d s2 Hres. apply lift_Returned in Hres. destruct Hres as [Hres ->].
    inv_bind H as u s3 Hwrite. apply to_file_inv in Hwrite.
    apply ret_Returned in H. destruct H as [-> ->].
    right. exists crs, (d0 :: appended), d, s1. auto.
Qed.

(** ** [dissolve()] without a grouping column *)

Lemma distinct_repeat (n : nat) : distinct (repeat zero_key (S n)) = [zero_key].
Proof.
  induction n as [|n IH]; [reflexivity|].
  change (repeat zero_key (S (S n))) with (zero_key :: repeat zero_key (S n)).
  cbn [distinct]. rewrite IH. reflexivity.
Qed.

Lemma group_keys_repeat (n : nat) : group_keys (repeat zero_key (S n)) = [zero_key].
Proof.
  unfold group_keys.
  assert (H : filter (fun k => negb (isnull k)) (repeat zero_key (S n)) = repeat zero_key (S n)).
  { generalize (S n). intros m. induction m; simpl; [reflexivity|]. now rewrite IHm. }
  rewrite H, distinct_repeat. reflexivity.
Qed.

Lemma group_rows_repeat (d : frame) :
  group_rows d (repeat zero_key (List.length d)) zero_key = d.
Proof.
  unfold group_rows. induction d as [|r d IH]; simpl; [reflexivity|]. now rewrite IH.
Qed.

Lemma mapM_const {A B : Type} (b : B) (l : list A) :
  mapM (fun _ => Returned b) l = Returned (repeat b (List.length l)).
Proof. induction l as [|x l IH]; simpl; [reflexivity|]. now rewrite IH. Qed.

Lemma dissolve_all (poly : list geometry) :
  poly <> [] ->
  dissolve None (map (fun g => [("geometry"%string, CGeom g)]) poly)
  = match unary_union poly with
    | Some u => Returned [(zero_key, [("geometry"%string, CGeom u)])]
    | None => Unspecified
    end.
Proof.
  intros Hne. unfold dissolve.
  set (d := map (fun g => [("geometry"%string, CGeom g)]) poly).
  assert (Hgeom : mapM geom d = Returned poly).
  { unfold d. rewrite (mapM_map _ geometry_of).
    - rewrite map_map. simpl. now rewrite map_id.
    - intros r Hr. apply in_map_iff in Hr. destruct Hr as (g & <- & _). reflexivity. }
  change (fun r : row => Returned (CNum (Fin 0))) with (fun _ : row => Returned zero_key).
  cbn [bind outcome_monad].
  rewrite mapM_const. rewrite Hgeom.
  assert (Hlen : exists n, @List.length row d = S n).
  { unfold d. rewrite length_map. destruct poly; [congruence|]. simpl. eauto. }
  destruct Hlen as (n & Hlen).
  assert (Hkeys : group_keys (repeat zero_key (@List.length row d)) = [zero_key]).
  { rewrite Hlen. apply group_keys_repeat. }
  rewrite Hkeys.
  cbn [mapM bind outcome_monad]. unfold dissolve_group.
  fold (group_rows d (repeat zero_key (@List.length row d)) zero_key).
  rewrite group_rows_repeat. cbn [bind outcome_monad]. rewrite Hgeom.
  destruct (unary_union poly); [|reflexivity].
  assert (Hcols : columns d = ["geometry"%string]).
  { unfold d. destruct poly; [congruence|]. reflexivity. }
  rewrite Hcols. reflexivity.
Qed.

(** ** What [semantic_segmentation_vectors] returns and writes *)

Lemma explode_single (u : geometry) :
  explode [(zero_key, [("geometry"%string, CGeom u)])]
  = Returned (map (fun p => (zero_key, [("geometry"%string, CGeom (Polygon p))])) (parts u)).
Proof. unfold explode. simpl. now rewrite app_nil_r. Qed.

Lemma seg_file_traced label t k (acc acc' : seg_acc) file s s' :
  Forall (traced t k) (fst acc) ->
  seg_file label t k acc file s = (Returned acc', s') ->
  Forall (traced t k) (fst acc').
Proof.
  intros HI H. unfold seg_file in H. inv_bind H as src s1 Hopen.
  destruct (foreground_polygons (binarize (band src) t) (transform src))
    as [|g poly] eqn:Hpoly.
  - apply ret_Returned in H. destruct H as [-> _]. exact HI.
  - inv_bind H as dis s2 Hdis. apply lift_Returned in Hdis. destruct Hdis as [Hdis ->].
    rewrite dissolve_all in Hdis by discriminate.
    destruct (unary_union (g :: poly)) as [u|] eqn:U; [|discriminate].
    injection Hdis as <-.
    inv_bind H as ex s3 Hex. apply lift_Returned in Hex. destruct Hex as [Hex ->].
    rewrite explode_single in Hex. injection Hex as <-.
    apply ret_Returned in H. destruct H as [-> _]. simpl fst.
    apply Forall_app. split; [exact HI|]. constructor; [|constructor].
    exists label, file, (band src), (transform src), u. split.
    + now rewrite Hpoly.
    + unfold ignore_index. destruct k; rewrite !map_map; apply map_ext; reflexivity.
Qed.

Lemma seg_label_traced t k (acc acc' : seg_acc) item s s' :
  Forall (traced t k) (fst acc) ->
  seg_label t k acc item s = (Returned acc', s') ->
  Forall (traced t k) (fst acc').
Proof.
  intros HI H. unfold seg_label in H. destruct item as [label dir].
  inv_bind H as tif_list s1 Hglob.
  eapply (foldM_inv _ (fun acc : seg_acc => Forall (traced t k) (fst acc))); eauto.
  intros. eapply seg_file_traced; eauto.
Qed.

Lemma seg_vectors_inv dict t k s p s' :
  semantic_segmentation_vectors dict t k s = (Returned p, s') ->
  exists first_dir, first (values dict) = Returned first_dir
  /\ ((p = ""%string /\ fs s' = fs s)
      \/ exists crs appended d s1,
           Forall (traced t k) appended
           /\ resolve_overlaps (concat appended) = Returned d
           /\ fs s1 = fs s
           /\ s' = mkState ((child (parent first_dir) "semantic_segmentation.gpkg",
                             mkFile 1 (VectorFile crs d))
                            :: remove_file (child (parent first_dir) "semantic_segmentation.gpkg")
                                           (fs s1))
                           (log s1 ++ [EvWrite (child (parent first_dir) "semantic_segmentation.gpkg")])
           /\ p = path_str (child (parent first_dir) "semantic_segmentation.gpkg")).
Proof.
  intros H. unfold semantic_segmentation_vectors in H. inv_bind H as first_dir s0 Hfirst.
  apply lift_Returned in Hfirst. destruct Hfirst as [Hfirst ->].
  exists first_dir. split; [exact Hfirst|].
  inv_bind H as acc s1 Hloop. destruct acc as [appended crs].
  assert (Hfs : fs s1 = fs s).
  { eapply (respects_foldM same_fs same_fs_refl same_fs_trans); [|exact Hloop].
    intros. apply seg_label_same_fs. }
  assert (Hex : Forall (traced t k) appended).
  { change appended with (fst (appended, crs)).
    eapply (foldM_inv _ (fun acc : seg_acc => Forall (traced t k) (fst acc)));
      [| |exact Hloop]; [|constructor].
    intros. eapply seg_label_traced; eauto. }
  destruct appended as [|d0 appended].
  - apply ret_Returned in H. destruct H as [-> ->]. left. auto.
  - inv_bind H as d s2 Hres. apply lift_Returned in Hres. destruct Hres as [Hres ->].
    inv_bind H as u s3 Hwrite. apply to_file_inv in Hwrite.
    apply ret_Returned in H. destruct H as [-> ->].
    right. exists crs, (d0 :: appended), d, s1. auto.
Qed.

(** ** The written dataset *)

Lemma find_file_written (out : path) (x : file) (f : filesystem) :
  find_file out ((out, x) :: f) = Some x.
Proof. simpl. now rewrite path_eqb_refl. Qed.

(** C2. In the dataset an entry point writes, no two features of one label
    overlap and every feature is a single polygon: whenever
    [object_detection_vectors] or [semantic_segmentation_vectors] returns a
    path other than the empty string, the dataset found at that path
    satisfies [resolved]. *)
Theorem C2_output_features_disjoint_and_single
  (predictions_dirs_dict : dict) (threshold : Q) (keep_ml_paths : bool)
  (s s' : state) (p : string) :
  object_detection_vectors predictions_dirs_dict threshold keep_ml_paths s = (Returned p, s')
  \/ semantic_segmentation_vectors predictions_dirs_dict threshold keep_ml_paths s
     = (Returned p, s') ->
  p <> ""%string ->
  exists out d, path_str out = p /\ dataset_at out s' = Some d /\ resolved d.
Proof.
  intros [H|H] Hp.
  - apply od_vectors_inv in H. destruct H as (first_dir & _ & [[-> _]|H]); [congruence|].
    destruct H as (crs & appended & d & s1 & _ & Hres & _ & -> & ->).
    exists (child (parent first_dir) "object_detection.gpkg"), d.
    split; [reflexivity|]. split; [|now apply resolve_overlaps_resolved with (d := concat appended)].
    unfold dataset_at. simpl fs. now rewrite find_file_written.
  - apply seg_vectors_inv in H. destruct H as (first_dir & _ & [[-> _]|H]); [congruence|].
    destruct H as (crs & appended & d & s1 & _ & Hres & _ & -> & ->).
    exists (child (parent first_dir) "semantic_segmentation.gpkg"), d.
    split; [reflexivity|]. split; [|now apply resolve_overlaps_resolved with (d := concat appended)].
    unfold dataset_at. simpl fs. now rewrite find_file_written.
Qed.

Lemma C2_witness :
  exists out d,
    path_str out = "/data/run/object_detection.gpkg"%string
    /\ dataset_at out
         (snd (object_detection_vectors Example.barrow_only (1 # 2) false Example.two_tiles))
       = Some d
    /\ resolved d.
Proof.
  apply (C2_output_features_disjoint_and_single
           Example.barrow_only (1 # 2) false Example.two_tiles).
  - left. vm_compute. reflexivity.
  - discriminate.
Defined.

(** ** The geometry records of a prediction file *)

Lemma assign_map {A : Type} (c : string) (f : row -> outcome cell)
  (F : A -> row) (h : A -> cell) (l : list A) :
  (forall x, f (F x) = Returned (h x)) ->
  assign c f (map F l) = Returned (map (fun x => set_col c (h x) (F x)) l).
Proof.
  intros H. unfold assign. induction l as [|x l IH]; simpl; [reflexivity|].
  rewrite H. simpl in IH. rewrite IH. reflexivity.
Qed.

Lemma select_map {A : Type} (mask : row -> outcome bool)
  (F : A -> row) (m : A -> bool) (l : list A) :
  (forall x, mask (F x) = Returned (m x)) ->
  select mask (map F l) = Returned (map F (filter m l)).
Proof.
  intros H. unfold select.
  assert (E : mapM mask (map F l) = Returned (map m l)).
  { induction l as [|x l IH]; simpl; [reflexivity|]. rewrite H, IH. reflexivity. }
  rewrite E. cbn [bind ret outcome_monad]. apply f_equal. clear E.
  induction l as [|x l IH]; simpl; [reflexivity|].
  destruct (m x); simpl; now rewrite IH.
Qed.

Lemma detection_records_spec (file : path) (t : Q) (k : bool) (recs : list detection) :
  detection_records file t k (map named recs)
  = Returned (map (spec_record file k) (filter (fun r => Qltb t (dscore r)) recs)).
Proof.
  unfold detection_records.
  rewrite (assign_map _ _ _ (fun r => CNum (Fin (dx_min r + dres r * px0 r)))) by reflexivity.
  cbn [bind outcome_monad].
  rewrite (assign_map _ _ _ (fun r => CNum (Fin (dx_min r + dres r * px1 r)))) by reflexivity.
  cbn [bind outcome_monad].
  rewrite (assign_map _ _ _ (fun r => CNum (Fin (dy_max r - dres r * py0 r)))) by reflexivity.
  cbn [bind outcome_monad].
  rewrite (assign_map _ _ _ (fun r => CNum (Fin (dy_max r - dres r * py1 r)))) by reflexivity.
  cbn [bind outcome_monad].
  rewrite (assign_map _ _ _ (fun r => CGeom (Polygon [spec_world_box r]))) by reflexivity.
  cbn [bind outcome_monad].
  rewrite map_map.
  rewrite (select_map _ _ (fun r => Qltb t (dscore r))) by reflexivity.
  cbn [bind outcome_monad].
  destruct k.
  - rewrite (assign_map _ _ _ (fun _ => CStr (provenance file))) by reflexivity.
    apply f_equal, map_ext. reflexivity.
  - cbn [ret outcome_monad]. apply f_equal, map_ext. reflexivity.
Qed.

Lemma read_csv_lines_of (r0 : detection) (recs : list detection) :
  read_csv (lines_of (r0 :: recs)) = Returned (lines_of (r0 :: recs)).
Proof.
  unfold read_csv, lines_of. cbn [map]. cbv zeta.
  assert (E : existsb (fun l : list cell => (List.length (line_of r0) <? List.length l)%nat)
                      (map line_of recs) = false).
  { induction recs as [|r recs IH]; simpl; auto. }
  rewrite E. apply f_equal. cbn [map]. apply f_equal2; [reflexivity|].
  rewrite map_map. apply map_ext. reflexivity.
Qed.

Lemma set_columns_lines_of (r0 : detection) (recs : list detection) :
  set_columns schema (lines_of (r0 :: recs)) = Returned (map named (r0 :: recs)).
Proof. unfold set_columns, lines_of. simpl. now rewrite map_map. Qed.

(** pathlib joins an absolute right operand as it is, a relative one below
    the left operand: for a directory given by a relative path the
    [file_path] of line 55 repeats the directory. *)
Remark file_path_of_listed_file :
  joinpath Example.barrow_dir (child Example.barrow_dir "tile_0.txt")
  = child Example.barrow_dir "tile_0.txt"
  /\ joinpath (Path "predictions") (child (Path "predictions") "tile_0.txt")
     = Path "predictions/predictions/tile_0.txt".
Proof. split; reflexivity. Qed.


(** C10. Called with an empty dictionary, each entry point raises
    [IndexError] at [list(...)[0]]; the state is untouched: no file was
    looked at and nothing was returned. *)
Theorem C10_empty_dict_raises_IndexError
  (threshold : Q) (keep_ml_paths : bool) (s : state) :
  object_detection_vectors [] threshold keep_ml_paths s = (Raised IndexError, s)
  /\ semantic_segmentation_vectors [] threshold keep_ml_paths s = (Raised IndexError, s).
Proof. split; reflexivity. Qed.

(** ** Empty prediction files *)

Lemma glob_run (dir : path) (suffix : string) (s : state) :
  glob dir suffix s
  = (Returned (listing (fs s) dir suffix), mkState (fs s) (log s ++ [EvGlob dir])).
Proof. reflexivity. Qed.

Lemma os_stat_size_found (p : path) (s : state) (x : file) :
  find_file p (fs s) = Some x ->
  os_stat_size p s = (Returned (st_size x), mkState (fs s) (log s ++ [EvStat p])).
Proof. intros H. unfold os_stat_size. simpl. now rewrite H. Qed.

Lemma od_file_skips ptp t k (acc : od_acc) (file : path) (s : state) :
  zero_bytes (fs s) (joinpath ptp file) ->
  od_file ptp t k acc file s
  = (Returned acc, mkState (fs s) (log s ++ [EvStat (joinpath ptp file)])).
Proof.
  intros (x & Hx & Hsize). unfold od_file.
  cbn [bind M_monad]. rewrite (os_stat_size_found _ _ _ Hx). now rewrite Hsize.
Qed.

Lemma od_files_skip ptp t k (acc : od_acc) (files : list path) :
  forall s,
    Forall (fun f => zero_bytes (fs s) (joinpath ptp f)) files ->
    exists s', foldM (od_file ptp t k) acc files s = (Returned acc, s')
               /\ fs s' = fs s /\ logs_only is_scan s s'.
Proof.
  induction files as [|f files IH]; intros s H.
  - exists s. split; [reflexivity|]. split; [reflexivity | apply logs_only_refl].
  - inversion H as [|? ? Hf Hrest]; subst.
    destruct (IH (mkState (fs s) (log s ++ [EvStat (joinpath ptp f)])) Hrest)
      as (s' & Hrun & Hfs & Hlog).
    exists s'. split; [|split].
    + cbn [foldM bind M_monad]. rewrite (od_file_skips _ _ _ _ _ _ Hf). exact Hrun.
    + exact Hfs.
    + eapply logs_only_trans; [|exact Hlog].
      exists [EvStat (joinpath ptp f)]. split; [reflexivity|]. repeat constructor.
Qed.

Lemma od_labels_skip ptp t k (acc : od_acc) (d : dict) :
  forall s,
    Forall (zero_bytes (fs s)) (prediction_files (fs s) d ptp) ->
    exists s', foldM (od_label ptp t k) acc d s = (Returned acc, s')
               /\ fs s' = fs s /\ logs_only is_scan s s'.
Proof.
  induction d as [|item d IH]; intros s H.
  - exists s. split; [reflexivity|]. split; [reflexivity | apply logs_only_refl].
  - unfold prediction_files in H. simpl flat_map in H. apply Forall_app in H.
    destruct H as [Hitem Hrest].
    set (s1 := mkState (fs s) (log s ++ [EvGlob (snd item)])).
    destruct (od_files_skip ptp t k acc (listing (fs s) (snd item) ".txt") s1)
      as (s2 & Hrun2 & Hfs2 & Hlog2).
    { rewrite Forall_forall in *. intros f Hf. apply Hitem. now apply in_map. }
    destruct (IH s2) as (s' & Hrun & Hfs & Hlog).
    { rewrite Hfs2. exact Hrest. }
    exists s'. split; [|split].
    + cbn [foldM bind M_monad]. unfold od_label at 1. cbn [bind M_monad].
      rewrite glob_run. fold s1. rewrite Hrun2. exact Hrun.
    + rewrite Hfs, Hfs2. reflexivity.
    + eapply logs_only_trans; [|exact Hlog].
      eapply logs_only_trans; [|exact Hlog2].
      exists [EvGlob (snd item)]. split; [reflexivity|]. repeat constructor.
Qed.



(** ** Exceptions pass through the loops *)

Lemma obind_defined {A B : Type} (m : outcome A) (k : A -> outcome B) :
  m <> Unspecified -> (forall a, k a <> Unspecified) -> bind m k <> Unspecified.
Proof. intros Hm Hk. simpl. destruct m; auto. discriminate. Qed.

Lemma num_defined (c : string) (r : row) : num c r <> Unspecified.
Proof. unfold num. destruct (lookup c r) as [[| |]|]; discriminate. Qed.

Ltac defined_step :=
  match goal with
  | |- bind _ _ <> Unspecified => apply obind_defined; intros
  | |- mapM _ _ <> Unspecified => apply mapM_defined; intros
  | |- num _ _ <> Unspecified => apply num_defined
  | |- ret _ <> Unspecified => discriminate
  | |- Returned _ <> Unspecified => discriminate
  | |- Raised _ <> Unspecified => discriminate
  | |- (if ?b then _ else _) <> Unspecified => destruct b
  | |- (match ?x with _ => _ end) <> Unspecified => destruct x
  end.

Lemma detection_records_defined file t k d :
  detection_records file t k d <> Unspecified.
Proof.
  unfold detection_records, assign, select, to_world_x, to_world_y, bbox, above.
  repeat defined_step.
Qed.

Lemma set_columns_defined names t : set_columns names t <> Unspecified.
Proof. unfold set_columns. repeat defined_step. Qed.

Lemma from_epsg_defined d : from_epsg d <> Unspecified.
Proof. unfold from_epsg. repeat defined_step. Qed.

Lemma read_csv_defined lines : read_csv lines <> Unspecified.
Proof. unfold read_csv. repeat defined_step. Qed.

Lemma defined_bind {A B : Type} (m : M A) (k : A -> M B) :
  never_unspecified m -> (forall a, never_unspecified (k a)) ->
  never_unspecified (bind m k).
Proof.
  intros Hm Hk s s' H. simpl in H. destruct (m s) as [[a| |] s1] eqn:E.
  - eapply Hk; eauto.
  - discriminate.
  - eapply Hm; eauto.
Qed.

Lemma defined_ret {A : Type} (a : A) : never_unspecified (ret a : M A).
Proof. intros s s' H. discriminate. Qed.

Lemma defined_lift {A : Type} (o : outcome A) :
  o <> Unspecified -> never_unspecified (lift o).
Proof. intros Ho s s' H. injection H as -> _. congruence. Qed.

Lemma defined_emit (e : event) : never_unspecified (emit e).
Proof. intros s s' H. discriminate. Qed.

Lemma defined_get_fs : never_unspecified get_fs.
Proof. intros s s' H. discriminate. Qed.

Lemma defined_foldM {A S : Type} (f : S -> A -> M S) (l : list A) :
  (forall acc x, never_unspecified (f acc x)) ->
  forall acc, never_unspecified (foldM f acc l).
Proof.
  intros Hf. induction l as [|x l IH]; intros acc; simpl.
  - apply defined_ret.
  - apply defined_bind; auto.
Qed.

Ltac never_step :=
  match goal with
  | |- never_unspecified (bind _ _) => apply defined_bind; intros
  | |- never_unspecified (ret _) => apply defined_ret
  | |- never_unspecified (emit _) => apply defined_emit
  | |- never_unspecified get_fs => apply defined_get_fs
  | |- never_unspecified (raise _) => apply defined_lift; discriminate
  | |- never_unspecified (lift (read_csv _)) => apply defined_lift, read_csv_defined
  | |- never_unspecified (lift (set_columns _ _)) => apply defined_lift, set_columns_defined
  | |- never_unspecified (lift (from_epsg _)) => apply defined_lift, from_epsg_defined
  | |- never_unspecified (lift (detection_records _ _ _ _)) =>
      apply defined_lift, detection_records_defined
  | |- never_unspecified (match ?x with _ => _ end) => destruct x
  | |- never_unspecified (if ?x then _ else _) => destruct x
  end.

Lemma od_file_defined ptp t k acc file : never_unspecified (od_file ptp t k acc file).
Proof.
  unfold od_file, os_stat_size, pd_read_csv. repeat never_step.
Qed.

Lemma od_label_defined ptp t k acc item : never_unspecified (od_label ptp t k acc item).
Proof.
  unfold od_label, glob. repeat never_step. apply defined_foldM. intros.
  apply od_file_defined.
Qed.

(** A loop raises as soon as one of its elements raises, given that its body
    only reads the file system and never leaves the model. *)
Lemma foldM_raises {A S : Type} (f : S -> A -> M S) (F : filesystem) (x0 : A) :
  (forall acc x, respects same_fs (f acc x)) ->
  (forall acc x, never_unspecified (f acc x)) ->
  (forall acc, raises_on F (f acc x0)) ->
  forall l acc, In x0 l -> raises_on F (foldM f acc l).
Proof.
  intros Hfs Hdef Hbad. induction l as [|x l IH]; intros acc Hin s Hs; [contradiction|].
  cbn [foldM bind M_monad]. destruct (f acc x s) as [[acc1|e|] s1] eqn:E.
  - assert (Hs1 : fs s1 = F) by (apply Hfs in E; unfold same_fs in E; congruence).
    destruct Hin as [->|Hin].
    + destruct (Hbad acc s Hs) as (e & s' & He). congruence.
    + apply IH; auto.
  - eauto.
  - exfalso. eapply Hdef; eauto.
Qed.

Lemma pad_length (n : nat) (l : list cell) :
  (List.length l <= n)%nat -> List.length (pad n l) = n.
Proof. intros H. unfold pad. rewrite length_app, repeat_length. lia. Qed.

(** Reading a table none of whose lines has ten fields. *)
Lemma read_malformed (lines : list (list cell)) :
  lines <> [] ->
  Forall (fun l => List.length l <> 10%nat) lines ->
  exists e, (t <- read_csv lines ;; set_columns schema t) = Raised e
            /\ (e = ValueError \/ e = ParserError).
Proof.
  intros Hne Hall. destruct lines as [|l0 rest]; [congruence|].
  inversion Hall as [|? ? H0 _]; subst.
  unfold read_csv.
  destruct (existsb _ rest); cbn [bind outcome_monad]; [eauto|].
  unfold set_columns. cbn [map]. rewrite pad_length by lia.
  destruct (Nat.eqb_spec (List.length l0) (List.length schema)) as [E|E].
  - exfalso. apply H0. exact E.
  - eauto.
Qed.

Lemma od_file_malformed ptp t k (acc : od_acc) (file : path) (s : state)
  (size : N) (lines : list (list cell)) :
  find_file (joinpath ptp file) (fs s) = Some (mkFile size (Table lines)) ->
  size <> 0%N ->
  lines <> [] ->
  Forall (fun l => List.length l <> 10%nat) lines ->
  exists e s', od_file ptp t k acc file s = (Raised e, s')
               /\ (e = ValueError \/ e = ParserError).
Proof.
  intros Hfile Hsize Hne Hall.
  destruct (read_malformed lines Hne Hall) as (e & He & Hkind).
  unfold od_file. cbn [bind M_monad]. rewrite (os_stat_size_found _ _ _ Hfile).
  cbn [st_size]. destruct (N.eqb_spec size 0) as [|_]; [congruence|]. cbn [negb].
  unfold pd_read_csv. cbn [bind M_monad emit get_fs fs]. rewrite Hfile.
  unfold lift at 1. cbn [bind outcome_monad] in He.
  destruct (read_csv lines) as [t0| |] eqn:R.
  - unfold lift at 1. rewrite He. eauto.
  - injection He as <-. eauto.
  - discriminate.
Qed.



(** A line shorter than the first one is not an error for [read_csv]: it is
    filled with missing values. *)
Remark read_csv_pads_short_lines :
  read_csv [line_of Example.det1; removelast (line_of Example.det2)]
  = Returned [line_of Example.det1; removelast (line_of Example.det2) ++ [null]].
Proof. reflexivity. Qed.

(** ** The orchestrator *)

Lemma put_fs_logs_only (P : event -> Prop) (f : filesystem) :
  respects (logs_only P) (put_fs f).
Proof.
  intros s o s' H. injection H as _ <-. exists []. split; [cbn; now rewrite app_nil_r|constructor].
Qed.

Lemma call_logs_only {A : Type} (P : event -> Prop) (f : external A) :
  respects (logs_only P) (call f).
Proof.
  intros s o s' H. unfold call in H. destruct (f (fs s)) as [o' f'].
  injection H as _ <-. exists []. split; [cbn; now rewrite app_nil_r|constructor].
Qed.

#[local] Hint Resolve put_fs_logs_only call_logs_only : adaf.

Lemma emit_no_rmtree (e : event) : no_rmtree e -> respects (logs_only no_rmtree) (emit e).
Proof. apply emit_logs_only. Qed.

#[local] Hint Extern 1 (no_rmtree _) => exact I : adaf.
#[local] Hint Resolve emit_no_rmtree : adaf.

Lemma unlink_no_rmtree (p : path) : respects (logs_only no_rmtree) (unlink p).
Proof. unfold unlink. repeat respects_step. Qed.

Lemma copy_no_rmtree (src dst : path) : respects (logs_only no_rmtree) (copy src dst).
Proof. unfold copy. repeat respects_step. Qed.

#[local] Hint Resolve unlink_no_rmtree copy_no_rmtree : adaf.

Lemma run_visualisations_no_rmtree w dem tile_size save_dir nr :
  respects (logs_only no_rmtree) (run_visualisations w dem tile_size save_dir nr).
Proof. unfold run_visualisations. repeat respects_step. Qed.

#[local] Hint Resolve run_visualisations_no_rmtree : adaf.

Lemma visualize_no_rmtree w inp save_dir :
  respects (logs_only no_rmtree) (visualize w inp save_dir).
Proof. unfold visualize, mkdir. repeat respects_step. Qed.

Lemma unsupported_eqb (mode : string) :
  ~ supported mode ->
  String.eqb mode "object detection" = false /\ String.eqb mode "segmentation" = false.
Proof.
  unfold supported. intros H. split; apply String.eqb_neq; tauto.
Qed.

Lemma infer_unsupported w inp save_dir vis_path (s : state) :
  ~ supported (ml_type inp) ->
  infer w inp save_dir vis_path s
  = (Raised WrongMlType, mkState (fs s) (log s ++ [EvLog "inference_inputs"])).
Proof.
  intros H. destruct (unsupported_eqb _ H) as [H1 H2].
  unfold infer. cbn [bind M_monad emit]. rewrite H1, H2. reflexivity.
Qed.

(** C8. With an inference mode other than the two supported ones,
    [main_routine] never returns and removes no directory tree; once the
    visualisation block has returned, the run ends with the exception
    [Exception("Wrong ml_type: ...")] in the very state that block left behind
    (one more log line apart): nothing is removed afterwards. *)
Theorem C8_unsupported_mode_no_cleanup
  (w : collaborators) (inp : inputs) (s : state) :
  ~ supported (ml_type inp) ->
  (forall o s', main_routine w inp s = (o, s') ->
     (forall p, o <> Returned p) /\ logs_only no_rmtree s s')
  /\ (forall vis_path vrt_path s1,
        visualize w inp (run_dir w inp) (prelude w inp s)
        = (Returned (vis_path, vrt_path), s1) ->
        main_routine w inp s
        = (Raised WrongMlType, mkState (fs s1) (log s1 ++ [EvLog "inference_inputs"]))).
Proof.
  intros Hmode.
  assert (Hrun : forall vis_path vrt_path s1,
            visualize w inp (run_dir w inp) (prelude w inp s)
            = (Returned (vis_path, vrt_path), s1) ->
            main_routine w inp s
            = (Raised WrongMlType, mkState (fs s1) (log s1 ++ [EvLog "inference_inputs"]))).
  { intros vis_path vrt_path s1 Hvis. unfold main_routine, mkdir.
    cbn [bind M_monad emit fs log]. rewrite <- app_assoc.
    change (mkState (fs s) (log s ++ [EvMkdir (run_dir w inp)] ++ [EvLog "logfile"]))
      with (prelude w inp s).
    rewrite Hvis. now rewrite infer_unsupported. }
  split; [|exact Hrun].
  intros o s' H.
  assert (Hpre : logs_only no_rmtree s (prelude w inp s)).
  { exists ([EvMkdir (run_dir w inp)] ++ [EvLog "logfile"]). split; [reflexivity|].
    repeat constructor. }
  destruct (visualize w inp (run_dir w inp) (prelude w inp s)) as [[[vis vrt]|e|] s1] eqn:Hvis.
  - rewrite (Hrun _ _ _ eq_refl) in H. injection H as <- <-. split; [discriminate|].
    eapply logs_only_trans; [exact Hpre|].
    eapply logs_only_trans; [eapply visualize_no_rmtree; exact Hvis|].
    exists [EvLog "inference_inputs"%string]. split; [reflexivity|]. repeat constructor.
  - unfold main_routine, mkdir in H. cbn [bind M_monad emit fs log] in H.
    rewrite <- app_assoc in H.
    change (mkState (fs s) (log s ++ [EvMkdir (run_dir w inp)] ++ [EvLog "logfile"]))
      with (prelude w inp s) in H.
    rewrite Hvis in H. injection H as <- <-. split; [discriminate|].
    eapply logs_only_trans; [exact Hpre|]. eapply visualize_no_rmtree; exact Hvis.
  - unfold main_routine, mkdir in H. cbn [bind M_monad emit fs log] in H.
    rewrite <- app_assoc in H.
    change (mkState (fs s) (log s ++ [EvMkdir (run_dir w inp)] ++ [EvLog "logfile"]))
      with (prelude w inp s) in H.
    rewrite Hvis in H. injection H as <- <-. split; [discriminate|].
    eapply logs_only_trans; [exact Hpre|]. eapply visualize_no_rmtree; exact Hvis.
Qed.

Lemma C8_witness :
  (forall o s', main_routine Example.collab Example.wrong_mode Example.with_dem = (o, s') ->
     (forall p, o <> Returned p) /\ logs_only no_rmtree Example.with_dem s')
  /\ (forall vis_path vrt_path s1,
        visualize Example.collab Example.wrong_mode
          (run_dir Example.collab Example.wrong_mode)
          (prelude Example.collab Example.wrong_mode Example.with_dem)
        = (Returned (vis_path, vrt_path), s1) ->
        main_routine Example.collab Example.wrong_mode Example.with_dem
        = (Raised WrongMlType, mkState (fs s1) (log s1 ++ [EvLog "inference_inputs"]))).
Proof.
  apply (C8_unsupported_mode_no_cleanup Example.collab Example.wrong_mode Example.with_dem).
  intros [H|H]; discriminate H.
Defined.

(** The run of the example: the visualisations and their mosaic are still
    there when the exception leaves [main_routine]. *)
Remark wrong_mode_keeps_visualisations :
  let run := main_routine Example.collab Example.wrong_mode Example.with_dem in
  fst run = Raised WrongMlType
  /\ map fst (fs (snd run))
     = [ mkPath true ["data"; "dem_20240101_120000"; "slrm"; "tile_0.tif"];
         mkPath true ["data"; "dem_20240101_120000"; "slrm.vrt"];
         Example.dem ]%string.
Proof. vm_compute. split; reflexivity. Qed.

(** ** Binarisation and regions *)

Lemma combine_map_map {A B C : Type} (f : A -> B) (g : A -> C) (l : list A) :
  combine (map f l) (map g l) = map (fun x => (f x, g x)) l.
Proof. induction l as [|x l IH]; simpl; [reflexivity|]. now rewrite IH. Qed.

Lemma assign_where_map (test : float -> bool) (g : float -> float) (v : float)
  (a : list (list float)) :
  assign_where (array_test test a) v (map (map g) a)
  = map (map (fun x => if test x then v else g x)) a.
Proof.
  unfold assign_where, array_test. rewrite combine_map_map, map_map.
  apply map_ext. intros l. cbn [fst snd]. rewrite combine_map_map, map_map. reflexivity.
Qed.

Lemma assign_where_test (test : float -> bool) (v : float) (a : list (list float)) :
  assign_where (array_test test a) v a
  = map (map (fun x => if test x then v else x)) a.
Proof.
  rewrite <- (assign_where_map test (fun x => x) v a). f_equal.
  rewrite <- (map_id a) at 1. apply map_ext. intros l. now rewrite map_id.
Qed.

Lemma fge_flt_exclusive (v : float) (t : Q) :
  fge v (Fin t) = true -> flt v (Fin t) = false.
Proof. destruct v as [a|]; simpl; [|discriminate]. unfold Qltb. now intros ->. Qed.

Lemma binarize_spec (prob_mask : list (list float)) (threshold : Q) :
  binarize prob_mask threshold = map (map (spec_binarize_value threshold)) prob_mask.
Proof.
  unfold binarize. cbv zeta.
  rewrite assign_where_test, assign_where_map.
  apply map_ext. intros l. apply map_ext. intros v. unfold spec_binarize_value.
  destruct (fge v (Fin threshold)) eqn:G.
  - now rewrite (fge_flt_exclusive _ _ G).
  - reflexivity.
Qed.

Lemma foreground_polygons_regions (prediction : list (list float)) (t : affine) :
  foreground_polygons prediction t
  = map (region_geometry t)
        (filter (fun region => is_one (region_value region)) (regions prediction)).
Proof.
  unfold foreground_polygons, shapes. induction (regions prediction) as [|r rs IH].
  - reflexivity.
  - cbn [map filter snd]. fold (is_one (region_value r)).
    destruct (is_one (region_value r)); cbn [map fst]; now rewrite IH.
Qed.

Lemma feq_is_one (a b : float) : feq a b = true -> is_one a = is_one b.
Proof.
  destruct a as [x|], b as [y|]; simpl; try discriminate.
  intros H. apply Qeq_bool_iff in H. unfold is_one, feq.
  destruct (Qeq_bool x 1) eqn:X, (Qeq_bool y 1) eqn:Y; try reflexivity.
  - apply Qeq_bool_iff in X. rewrite H in X. apply Qeq_bool_iff in X. congruence.
  - apply Qeq_bool_iff in Y. rewrite <- H in Y. apply Qeq_bool_iff in Y. congruence.
Qed.

Lemma pix_adj_is_one (p q : pixel) :
  pix_adj p q = true \/ pix_adj q p = true -> is_one (pval p) = is_one (pval q).
Proof.
  unfold pix_adj. intros [H|H]; apply andb_true_iff in H; destruct H as [H _].
  - now apply feq_is_one.
  - symmetry. now apply feq_is_one.
Qed.

Lemma linked_is_one (region : list pixel) (p q : pixel) :
  linked pix_adj region p q -> is_one (pval p) = is_one (pval q).
Proof.
  induction 1 as [|x y z _ _ Hxy _ IH]; [reflexivity|].
  rewrite <- IH. now apply pix_adj_is_one.
Qed.

Lemma region_value_is_one (region : list pixel) (p : pixel) :
  connected pix_adj region -> In p region ->
  is_one (region_value region) = is_one (pval p).
Proof.
  intros [Hne Hc] Hp. destruct region as [|h rest]; [congruence|].
  cbn [region_value]. apply (linked_is_one (h :: rest)). apply Hc; simpl; auto.
Qed.


(** ** Raising the threshold *)

(** C5, as stated, fails in segmentation mode: on a row of three pixels
    0.9, 0.6, 0.9 the threshold 0.5 gives one polygon and the threshold 0.7
    gives two, at the geometry extractor and in the written dataset. *)
Lemma C5_counterexample :
  1 # 2 < 7 # 10
  /\ (List.length (foreground_polygons (binarize (band Example.ridge) (1 # 2))
                                       (transform Example.ridge))
      < List.length (foreground_polygons (binarize (band Example.ridge) (7 # 10))
                                         (transform Example.ridge)))%nat
  /\ feature_count Example.seg_output
       (snd (semantic_segmentation_vectors Example.barrow_only (1 # 2) false
               Example.one_raster)) = Some 1%nat
  /\ feature_count Example.seg_output
       (snd (semantic_segmentation_vectors Example.barrow_only (7 # 10) false
               Example.one_raster)) = Some 2%nat.
Proof.
  split; [reflexivity|]. split; [vm_compute; lia|].
  split; vm_compute; reflexivity.
Qed.

(** The same happens to the written dataset in detection mode: dropping a
    box that bridges two others leaves two features instead of one. *)
Remark detection_output_count_not_monotone :
  feature_count Example.od_output
    (snd (object_detection_vectors Example.barrow_only (1 # 2) false Example.three_boxes))
  = Some 1%nat
  /\ feature_count Example.od_output
       (snd (object_detection_vectors Example.barrow_only (7 # 10) false Example.three_boxes))
     = Some 2%nat.
Proof. vm_compute. split; reflexivity. Qed.

Lemma sublist_map {A B : Type} (f : A -> B) (l m : list A) :
  sublist l m -> sublist (map f l) (map f m).
Proof.
  induction 1; simpl; [apply sublist_nil | now apply sublist_skip | now apply sublist_keep].
Qed.

Lemma sublist_length {A : Type} (l m : list A) :
  sublist l m -> (List.length l <= List.length m)%nat.
Proof. induction 1; simpl; lia. Qed.

Lemma select_cons (mask : row -> outcome bool) (r : row) (d : frame) :
  select mask (r :: d)
  = (b <- mask r ;; rest <- select mask d ;;
     Returned (if (b : bool) then r :: rest else rest)).
Proof.
  unfold select. cbn [mapM bind ret outcome_monad].
  destruct (mask r) as [b| |]; try reflexivity.
  destruct (mapM mask d) as [m| |]; try reflexivity.
  destruct b; reflexivity.
Qed.

Lemma above_mono (t1 t2 : Q) (r : row) (b1 : bool) :
  t1 < t2 -> above t1 r = Returned b1 ->
  exists b2, above t2 r = Returned b2 /\ (b2 = true -> b1 = true).
Proof.
  intros Ht. unfold above. cbn [bind ret outcome_monad].
  destruct (num "score" r) as [x| |]; try discriminate.
  intros H. injection H as <-. eexists. split; [reflexivity|].
  destruct x as [a|]; simpl; [|discriminate].
  rewrite !Qltb_true. intros H. eapply Qlt_trans; eauto.
Qed.

Lemma select_mono (t1 t2 : Q) (d out1 : frame) :
  t1 < t2 -> select (above t1) d = Returned out1 ->
  exists out2, select (above t2) d = Returned out2 /\ sublist out2 out1.
Proof.
  intros Ht. revert out1. induction d as [|r d IH]; intros out1 H.
  - injection H as <-. exists []. split; [reflexivity|apply sublist_nil].
  - rewrite select_cons in H. cbn [bind ret outcome_monad] in H.
    destruct (above t1 r) as [b1| |] eqn:B1; try discriminate.
    destruct (select (above t1) d) as [rest1| |]; try discriminate.
    injection H as <-.
    destruct (above_mono t1 t2 r b1 Ht B1) as (b2 & B2 & Hb).
    destruct (IH rest1 eq_refl) as (rest2 & R2 & Hsub).
    rewrite select_cons, B2, R2. cbn [bind ret outcome_monad].
    eexists. split; [reflexivity|].
    destruct b2.
    + rewrite Hb by reflexivity. now apply sublist_keep.
    + destruct b1; [now apply sublist_skip | exact Hsub].
Qed.

Lemma assign_const_map (c : string) (v : cell) (d : frame) :
  assign c (fun _ => ret v) d = Returned (map (set_col c v) d).
Proof.
  unfold assign. induction d as [|r d IH]; [reflexivity|].
  cbn [mapM bind ret outcome_monad] in *. now rewrite IH.
Qed.

Lemma detection_records_mono (t1 t2 : Q) (file : path) (keep : bool) (d out1 : frame) :
  t1 < t2 -> detection_records file t1 keep d = Returned out1 ->
  exists out2, detection_records file t2 keep d = Returned out2 /\ sublist out2 out1.
Proof.
  intros Ht. unfold detection_records. cbn [bind outcome_monad].
  destruct (assign "x0" _ d) as [d1| |]; try discriminate.
  destruct (assign "x1" _ d1) as [d2| |]; try discriminate.
  destruct (assign "y0" _ d2) as [d3| |]; try discriminate.
  destruct (assign "y1" _ d3) as [d4| |]; try discriminate.
  destruct (assign "geometry" _ d4) as [d5| |]; try discriminate.
  destruct (select (above t1) _) as [kept1| |] eqn:S1; try discriminate.
  destruct (select_mono _ _ _ _ Ht S1) as (kept2 & S2 & Hsub). rewrite S2.
  destruct keep.
  - rewrite !assign_const_map. intros H. injection H as <-.
    eexists. split; [reflexivity|]. now apply sublist_map.
  - intros H. injection H as <-. eexists. split; [reflexivity|]. exact Hsub.
Qed.

Lemma combine_map_r {A B C : Type} (f : B -> C) (l : list A) (m : list B) :
  combine l (map f m) = map (fun p => (fst p, f (snd p))) (combine l m).
Proof.
  revert m. induction l as [|x l IH]; intros [|y m]; simpl; try reflexivity.
  now rewrite IH.
Qed.

Lemma enumerate_map {A B : Type} (f : A -> B) (l : list A) :
  enumerate (map f l) = map (fun ix => (fst ix, f (snd ix))) (enumerate l).
Proof. unfold enumerate. now rewrite length_map, combine_map_r. Qed.

Lemma pixels_map (g : float -> float) (image : list (list float)) :
  pixels (map (map g) image)
  = map (fun p => mkPixel (prow p) (pcol p) (g (pval p))) (pixels image).
Proof.
  unfold pixels. rewrite enumerate_map, flat_map_concat_map, map_map.
  rewrite flat_map_concat_map, concat_map, map_map. f_equal.
  apply map_ext. intros [r l]. cbn [fst snd].
  rewrite enumerate_map, !map_map. reflexivity.
Qed.

Lemma is_one_binarized (t : Q) (v : float) :
  is_one (spec_binarize_value t v) = true -> fge v (Fin t) = true.
Proof.
  unfold spec_binarize_value. destruct (fge v (Fin t)) eqn:G; [reflexivity|].
  destruct (flt v (Fin t)) eqn:L; [discriminate|].
  destruct v as [a|]; [|discriminate].
  simpl in G, L. unfold Qltb in L. rewrite G in L. discriminate.
Qed.

Lemma fge_mono (t1 t2 : Q) (v : float) :
  t1 < t2 -> fge v (Fin t2) = true -> fge v (Fin t1) = true.
Proof.
  intros Ht. destruct v as [a|]; simpl; [|discriminate].
  rewrite !Qle_bool_iff. intros H. apply Qlt_le_weak. eapply Qlt_le_trans; eauto.
Qed.

(** C5, amended.  For thresholds t1 < t2: in detection mode the geometry
    records extracted from a prediction file at t2 are a sub-list of those
    extracted at t1, so there are no more of them; in segmentation mode every
    foreground pixel at t2 is a foreground pixel at t1. *)
Theorem C5_threshold_monotone_records_and_pixels (t1 t2 : Q) :
  t1 < t2 ->
  (forall file keep_ml_paths d out1,
      detection_records file t1 keep_ml_paths d = Returned out1 ->
      exists out2,
        detection_records file t2 keep_ml_paths d = Returned out2
        /\ sublist out2 out1
        /\ (List.length out2 <= List.length out1)%nat)
  /\ (forall prob_mask p,
        In p (pixels (binarize prob_mask t2)) -> is_one (pval p) = true ->
        In p (pixels (binarize prob_mask t1))).
Proof.
  intros Ht. split.
  - intros file keep d out1 H.
    destruct (detection_records_mono t1 t2 file keep d out1 Ht H) as (out2 & H2 & Hsub).
    exists out2. split; [exact H2|]. split; [exact Hsub|]. now apply sublist_length.
  - intros prob_mask p Hp Hone. rewrite binarize_spec, pixels_map in *.
    apply in_map_iff in Hp. destruct Hp as (q & <- & Hq). cbn [pval] in Hone.
    apply in_map_iff. exists q. split; [|exact Hq]. f_equal.
    pose proof (is_one_binarized _ _ Hone) as G2.
    pose proof (fge_mono _ _ _ Ht G2) as G1.
    unfold spec_binarize_value. now rewrite G1, G2.
Qed.

Lemma C5_witness :
  (forall file keep_ml_paths d out1,
      detection_records file (1 # 2) keep_ml_paths d = Returned out1 ->
      exists out2,
        detection_records file (7 # 10) keep_ml_paths d = Returned out2
        /\ sublist out2 out1
        /\ (List.length out2 <= List.length out1)%nat)
  /\ (forall prob_mask p,
        In p (pixels (binarize prob_mask (7 # 10))) -> is_one (pval p) = true ->
        In p (pixels (binarize prob_mask (1 # 2)))).
Proof.
  apply (C5_threshold_monotone_records_and_pixels (1 # 2) (7 # 10)). reflexivity.
Defined.

(** ** Labels are kept apart *)

Lemma Qeq_bool_trans (x y z : Q) :
  Qeq_bool x y = true -> Qeq_bool y z = true -> Qeq_bool x z = true.
Proof.
  rewrite !Qeq_bool_iff. intros H1 H2. now rewrite H1.
Qed.

Lemma cell_eqb_trans (a b c : cell) :
  cell_eqb a b = true -> cell_eqb b c = true -> cell_eqb a c = true.
Proof.
  destruct a as [[x|]| s |], b as [[y|]| t |], c as [[z|]| u |]; simpl;
    try discriminate.
  - apply Qeq_bool_trans.
  - rewrite !String.eqb_eq. congruence.
Qed.

Lemma same_label_sym (r1 r2 : row) : same_label r1 r2 -> same_label r2 r1.
Proof. unfold same_label. now rewrite cell_eqb_sym. Qed.

Lemma same_label_trans (r1 r2 r3 : row) :
  same_label r1 r2 -> same_label r2 r3 -> same_label r1 r3.
Proof. unfold same_label. apply cell_eqb_trans. Qed.

Lemma key_of_label (r : row) (v : cell) :
  key_of "label" r = Returned v -> label_of r = v.
Proof.
  unfold key_of, label_of. destruct (lookup "label" r); [|discriminate]. congruence.
Qed.

Lemma geom_geometry_of (r : row) (g : geometry) :
  geom r = Returned g -> geometry_of r = g.
Proof.
  unfold geom, geometry_of. destruct (lookup "geometry" r) as [[| |]|]; try discriminate.
  congruence.
Qed.

Lemma group_rows_In (d : frame) (ks : list cell) (k : cell) (r : row) :
  mapM (key_of "label") d = Returned ks ->
  (In r (group_rows d ks k) <-> In r d /\ cell_eqb (label_of r) k = true).
Proof.
  intros H. apply mapM_Returned in H. unfold group_rows.
  induction H as [|r0 v d ks Hr0 _ IH]; simpl; [tauto|].
  apply key_of_label in Hr0. destruct (cell_eqb v k) eqn:E; simpl; rewrite IH; subst v.
  - split; [intros [->|[? ?]]; auto | intros [[->|?] ?]; auto].
  - split; [intros [? ?]; auto | intros [[->|?] ?]; [congruence | auto]].
Qed.

Lemma distinct_repr (l : list cell) (x : cell) :
  In x l -> cell_eqb x x = true ->
  exists y, In y (distinct l) /\ cell_eqb y x = true.
Proof.
  induction l as [|h t IH]; simpl; intros Hin Hx; [contradiction|].
  destruct Hin as [->|Hin]; [eauto|].
  destruct (IH Hin Hx) as (y & Hy & Hyx).
  destruct (cell_eqb h y) eqn:E.
  - exists h. split; [auto|]. eapply cell_eqb_trans; eauto.
  - exists y. split; [|exact Hyx]. right. apply filter_In. split; [exact Hy|].
    now rewrite E.
Qed.

Lemma cell_eqb_not_null (x y : cell) : cell_eqb x y = true -> isnull x = false.
Proof. destruct x as [[|]| |], y as [[|]| |]; simpl; auto; discriminate. Qed.

Lemma group_keys_repr (ks : list cell) (x : cell) :
  In x ks -> cell_eqb x x = true ->
  exists k, In k (group_keys ks) /\ cell_eqb x k = true.
Proof.
  intros Hin Hx.
  assert (Hin' : In x (filter (fun k => negb (isnull k)) ks)).
  { apply filter_In. split; [exact Hin|]. now rewrite (cell_eqb_not_null x x Hx). }
  destruct (distinct_repr _ x Hin' Hx) as (y & Hy & Hyx).
  exists y. split.
  - unfold group_keys. now rewrite sort_keys_In.
  - now rewrite cell_eqb_sym.
Qed.

Lemma mapM_In {A B : Type} (f : A -> outcome B) (l : list A) (out : list B) (x : A) :
  mapM f l = Returned out -> In x l -> exists y, In y out /\ f x = Returned y.
Proof.
  intros H. apply mapM_Returned in H. intros Hx.
  destruct (Forall2_In_l _ _ _ H _ Hx) as (y & ? & ?). eauto.
Qed.

Lemma mapM_In_r {A B : Type} (f : A -> outcome B) (l : list A) (out : list B) (y : B) :
  mapM f l = Returned out -> In y out -> exists x, In x l /\ f x = Returned y.
Proof.
  intros H. apply mapM_Returned in H. intros Hy.
  destruct (Forall2_In_r _ _ _ H _ Hy) as (x & ? & ?). eauto.
Qed.

Lemma rects_Polygon (p : polygon) : rects (Polygon p) = p.
Proof. unfold rects. simpl. apply app_nil_r. Qed.

(** C6. The overlap resolver keeps labels apart.  Every rectangle of an
    output feature comes from an input record of the feature's label; every
    rectangle of an input record (whose label is a number or a text) lies in
    an output feature of the record's label; and two input records of
    different labels never feed the same output feature. *)
Theorem C6_label_isolation (d out : frame) :
  resolve_overlaps d = Returned out ->
  (forall f rect,
      In f out -> In rect (rects (geometry_of f)) ->
      exists r, In r d /\ same_label r f /\ In rect (rects (geometry_of r)))
  /\ (forall r rect,
        In r d -> same_label r r -> In rect (rects (geometry_of r)) ->
        exists f, In f out /\ same_label r f /\ In rect (rects (geometry_of f)))
  /\ (forall r1 r2 f1 f2,
        In r1 d -> In r2 d -> ~ same_label r1 r2 ->
        In f1 out -> In f2 out -> same_label r1 f1 -> same_label r2 f2 ->
        f1 <> f2).
Proof.
  intros H. apply resolve_overlaps_inv in H.
  destruct H as (ks & groups & Hks & Hg & ->). split; [|split].
  - intros f rect Hf Hrect. apply in_concat in Hf. destruct Hf as (fs & Hfs & Hf).
    apply in_map_iff in Hfs. destruct Hfs as (g & <- & Hgin).
    destruct (Forall2_In_r _ _ _ Hg _ Hgin) as (k & _ & Hk).
    pose proof Hk as (Hfst & _ & _).
    apply is_group_parts in Hk. destruct Hk as (gs & Hgs & Hparts).
    unfold group_features in Hf. apply in_map_iff in Hf. destruct Hf as (p & <- & Hp).
    rewrite geometry_of_feature, rects_Polygon in Hrect.
    rewrite Hparts in Hp.
    assert (Hin : In rect (concat (map rects gs))).
    { apply (components_In joins). eauto. }
    apply in_concat in Hin. destruct Hin as (rs & Hrs & Hin).
    apply in_map_iff in Hrs. destruct Hrs as (g0 & <- & Hg0).
    destruct (mapM_In_r _ _ _ _ Hgs Hg0) as (r & Hr & Hgeom).
    apply (group_rows_In _ _ _ _ Hks) in Hr. destruct Hr as [Hrd Hlab].
    exists r. split; [exact Hrd|]. split.
    + unfold same_label. rewrite label_of_feature, Hfst. exact Hlab.
    + now rewrite (geom_geometry_of _ _ Hgeom).
  - intros r rect Hr Hrefl Hrect.
    destruct (mapM_In _ _ _ _ Hks Hr) as (v & Hv & Hkey).
    apply key_of_label in Hkey. unfold same_label in Hrefl. rewrite Hkey in Hrefl.
    destruct (group_keys_repr ks v Hv Hrefl) as (k & Hk & Hvk).
    destruct (Forall2_In_l _ _ _ Hg _ Hk) as (g & Hgin & Hgroup).
    pose proof Hgroup as (Hfst & _ & _).
    apply is_group_parts in Hgroup. destruct Hgroup as (gs & Hgs & Hparts).
    assert (Hrg : In r (group_rows d ks k)).
    { apply (group_rows_In _ _ _ _ Hks). split; [exact Hr|]. now rewrite Hkey. }
    destruct (mapM_In _ _ _ _ Hgs Hrg) as (g0 & Hg0 & Hgeom).
    rewrite (geom_geometry_of _ _ Hgeom) in Hrect.
    assert (Hin : In rect (concat (map rects gs))).
    { apply in_concat. exists (rects g0). split; [now apply in_map|exact Hrect]. }
    apply (components_In joins) in Hin. destruct Hin as (p & Hp & Hin).
    exists (feature (fst g) (snd (snd g)) p). split; [|split].
    + apply in_concat. exists (group_features g). split; [now apply in_map|].
      unfold group_features. apply in_map. now rewrite Hparts.
    + unfold same_label. rewrite label_of_feature, Hfst, Hkey. exact Hvk.
    + now rewrite geometry_of_feature, rects_Polygon.
  - intros r1 r2 f1 f2 _ _ Hdiff _ _ H1 H2 Heq. subst f2. apply Hdiff.
    eapply same_label_trans; [exact H1|]. now apply same_label_sym.
Qed.

Lemma C6_witness :
  (forall f rect,
      In f Example.resolved_labels -> In rect (rects (geometry_of f)) ->
      exists r, In r Example.overlapping_labels /\ same_label r f
                /\ In rect (rects (geometry_of r)))
  /\ (forall r rect,
        In r Example.overlapping_labels -> same_label r r ->
        In rect (rects (geometry_of r)) ->
        exists f, In f Example.resolved_labels /\ same_label r f
                  /\ In rect (rects (geometry_of f)))
  /\ (forall r1 r2 f1 f2,
        In r1 Example.overlapping_labels -> In r2 Example.overlapping_labels ->
        ~ same_label r1 r2 ->
        In f1 Example.resolved_labels -> In f2 Example.resolved_labels ->
        same_label r1 f1 -> same_label r2 f2 ->
        f1 <> f2).
Proof.
  apply (C6_label_isolation Example.overlapping_labels Example.resolved_labels).
  vm_compute. reflexivity.
Defined.

(** The same through [object_detection_vectors]: the boxes of the two
    labels coincide, and the dataset holds one feature of each label. *)
Remark two_labels_two_features :
  option_map (map (fun r => (label_of r, rects (geometry_of r))))
    (dataset_at Example.od_output
       (snd (object_detection_vectors Example.both_labels (1 # 2) false Example.two_labels)))
  = Some [(CStr "barrow", [spec_world_box Example.det1]);
          (CStr "ringfort", [spec_world_box Example.det4])].
Proof. vm_compute. reflexivity. Qed.

(** The two records of the example overlap, and come out as two features,
    one of each label. *)
Remark overlapping_labels_stay_apart :
  geom_overlaps (Polygon [spec_world_box Example.det1])
                (Polygon [spec_world_box Example.det4]) = true
  /\ map label_of Example.resolved_labels = [CStr "barrow"; CStr "ringfort"].
Proof. vm_compute. split; reflexivity. Qed.

(** ** The attributes of the features *)

Lemma set_col_keys (c : string) (v : cell) (r : row) :
  map fst (set_col c v r) = add_key c (map fst r).
Proof.
  unfold add_key. induction r as [|[k w] r IH]; [reflexivity|].
  cbn [set_col map fst existsb]. rewrite (String.eqb_sym c k).
  destruct (String.eqb k c); [reflexivity|]. cbn [map fst orb]. rewrite IH.
  destruct (existsb (String.eqb c) (map fst r)); reflexivity.
Qed.

Lemma drop_cols_keys (cs : list string) (r : row) :
  map fst (drop_cols cs r)
  = filter (fun k => negb (existsb (String.eqb k) cs)) (map fst r).
Proof.
  unfold drop_cols. induction r as [|[k w] r IH]; [reflexivity|].
  cbn [filter map fst]. destruct (negb (existsb (String.eqb k) cs)); cbn [map fst];
    now rewrite IH.
Qed.

Lemma assign_uniform (c : string) (f : row -> outcome cell) (d d' : frame)
  (cols : list string) :
  assign c f d = Returned d' -> uniform cols d -> uniform (add_key c cols) d'.
Proof.
  unfold assign, uniform. intros H Hd. apply mapM_Returned in H.
  induction H as [|r r' d d' Hr _ IH]; [constructor|].
  pose proof (Forall_inv Hd) as Hr0. pose proof (Forall_inv_tail Hd) as Hd0.
  constructor; [|auto].
  cbn [bind ret outcome_monad] in Hr. destruct (f r) as [v| |]; try discriminate.
  injection Hr as <-. now rewrite set_col_keys, Hr0.
Qed.

Lemma select_incl (mask : row -> outcome bool) (d out : frame) :
  select mask d = Returned out -> incl out d.
Proof.
  revert out. induction d as [|r d IH]; intros out H.
  - injection H as <-. apply incl_refl.
  - rewrite select_cons in H. cbn [bind ret outcome_monad] in H.
    destruct (mask r) as [b| |]; try discriminate.
    destruct (select mask d) as [rest| |]; try discriminate.
    injection H as <-. specialize (IH rest eq_refl).
    destruct b; [apply incl_cons; [left; reflexivity|] |]; now apply incl_tl.
Qed.

Lemma uniform_incl (cols : list string) (d d' : frame) :
  incl d' d -> uniform cols d -> uniform cols d'.
Proof. unfold uniform. rewrite !Forall_forall. auto. Qed.

Lemma uniform_map (cols cols' : list string) (g : row -> row) (d : frame) :
  (forall r, map fst r = cols -> map fst (g r) = cols') ->
  uniform cols d -> uniform cols' (map g d).
Proof.
  unfold uniform. intros Hg Hd. rewrite Forall_forall in *. intros r Hr.
  apply in_map_iff in Hr. destruct Hr as (r0 & <- & Hr0). auto.
Qed.

Lemma detection_records_uniform file t k (d out : frame) :
  detection_records file t k d = Returned out ->
  uniform schema d -> uniform (od_columns k) out.
Proof.
  unfold detection_records. cbn [bind outcome_monad]. intros H Hd.
  destruct (assign "x0" _ d) as [d1| |] eqn:E1; try discriminate.
  apply assign_uniform with (cols := schema) in E1; [|exact Hd].
  destruct (assign "x1" _ d1) as [d2| |] eqn:E2; try discriminate.
  apply assign_uniform with (cols := schema) in E2; [|exact E1].
  destruct (assign "y0" _ d2) as [d3| |] eqn:E3; try discriminate.
  apply assign_uniform with (cols := schema) in E3; [|exact E2].
  destruct (assign "y1" _ d3) as [d4| |] eqn:E4; try discriminate.
  apply assign_uniform with (cols := schema) in E4; [|exact E3].
  destruct (assign "geometry" _ d4) as [d5| |] eqn:E5; try discriminate.
  apply assign_uniform with (cols := schema) in E5; [|exact E4].
  destruct (select (above t) _) as [kept| |] eqn:S; try discriminate.
  assert (Hkept : uniform (od_columns false) kept).
  { eapply uniform_incl; [eapply select_incl; exact S|].
    eapply uniform_map; [|exact E5].
    intros r Hr. now rewrite drop_cols_keys, Hr. }
  destruct k.
  - apply assign_uniform with (cols := od_columns false) in H; assumption.
  - injection H as <-. exact Hkept.
Qed.

Lemma combine_keys {B : Type} (names : list string) (l : list B) :
  List.length l = List.length names -> map fst (combine names l) = names.
Proof.
  revert l. induction names as [|n names IH]; intros [|x l]; simpl; try discriminate;
    try reflexivity.
  intros H. injection H as H. now rewrite IH.
Qed.

Lemma read_csv_rectangular (lines t : list (list cell)) :
  read_csv lines = Returned t ->
  exists n, Forall (fun l => List.length l = n) t
            /\ match t with [] => True | l :: _ => List.length l = n end.
Proof.
  unfold read_csv. destruct lines as [|l0 rest]; [discriminate|].
  destruct (existsb _ rest) eqn:E; [discriminate|]. intros H. injection H as <-.
  exists (List.length l0). split; [|cbn [map]; apply pad_length; lia].
  rewrite Forall_forall. intros l Hl. cbn [map] in Hl.
  destruct Hl as [<-|Hl]; [apply pad_length; lia|].
  apply in_map_iff in Hl. destruct Hl as (l1 & <- & Hl1). apply pad_length.
  destruct (Nat.ltb_spec (List.length l0) (List.length l1)) as [Hlt|Hge]; [|lia].
  assert (existsb (fun l => (List.length l0 <? List.length l)%nat) rest = true).
  { apply existsb_exists. exists l1. split; [exact Hl1|]. now apply Nat.ltb_lt. }
  congruence.
Qed.

Lemma extracted_uniform t k (d : frame) :
  extracted t k d -> uniform (od_columns k) d.
Proof.
  intros (file & lines & tab & named & Hread & Hcols & Hrec).
  eapply detection_records_uniform; [exact Hrec|].
  apply read_csv_rectangular in Hread. destruct Hread as (n & Hall & Hfirst).
  unfold set_columns in Hcols.
  destruct tab as [|l0 tab]; [discriminate|].
  destruct (Nat.eqb_spec (List.length l0) (List.length schema)) as [E|E]; [|discriminate].
  assert (Hnamed : named = map (combine schema) (l0 :: tab)) by congruence.
  rewrite Hnamed. clear Hnamed Hcols Hrec.
  unfold uniform. rewrite Forall_forall in *.
  intros r Hr. apply in_map_iff in Hr. destruct Hr as (l & <- & Hl).
  apply combine_keys. rewrite (Hall l Hl). congruence.
Qed.

Lemma traced_uniform t k (d : frame) : traced t k d -> uniform (seg_columns k) d.
Proof.
  intros (label & file & image & tr & u & _ & ->). unfold uniform.
  rewrite Forall_forall. intros r Hr. apply in_map_iff in Hr.
  destruct Hr as (p & <- & _). destruct k; reflexivity.
Qed.

Lemma uniform_concat (cols : list string) (ds : list frame) :
  Forall (uniform cols) ds -> uniform cols (concat ds).
Proof.
  unfold uniform. intros H. apply Forall_concat. exact H.
Qed.

Lemma attributes_feature (k : cell) (cs : list string) (agg : string -> cell)
  (p : polygon) :
  attributes (feature k (map (fun c => (c, agg c)) cs) p)
  = "label"%string :: filter (fun c => negb (String.eqb c "geometry")) cs.
Proof.
  unfold attributes, feature. cbn [map fst filter String.eqb Ascii.eqb Bool.eqb negb].
  rewrite map_map. cbn [fst]. now rewrite map_id.
Qed.

Lemma resolve_overlaps_attributes (cols : list string) (d out : frame) :
  resolve_overlaps d = Returned out -> uniform cols d ->
  Forall (fun r => attributes r = resolved_attributes cols) out.
Proof.
  intros H Hd. apply resolve_overlaps_inv in H.
  destruct H as (ks & groups & Hks & Hg & ->).
  rewrite Forall_forall. intros r Hr. apply in_concat in Hr.
  destruct Hr as (fs & Hfs & Hr). apply in_map_iff in Hfs.
  destruct Hfs as (g & <- & Hgin).
  destruct (Forall2_In_r _ _ _ Hg _ Hgin) as (k & Hk & (_ & _ & Hothers)).
  unfold group_features in Hr. apply in_map_iff in Hr. destruct Hr as (p & <- & _).
  rewrite Hothers, attributes_feature. unfold resolved_attributes. do 2 f_equal.
  unfold other_cols. f_equal.
  apply group_keys_In in Hk. destruct Hk as [Hk _].
  destruct d as [|r0 d].
  - injection Hks as <-. contradiction.
  - inversion Hd; subst. reflexivity.
Qed.

(** The end-to-end scenario: two tiles report one barrow each, the boxes
    overlap by half, both scores are 0.9; at threshold 0.5 the dataset holds
    one feature, made of both boxes. *)
Remark two_tiles_one_feature :
  option_map (map (fun r => (label_of r, rects (geometry_of r))))
    (dataset_at Example.od_output
       (snd (object_detection_vectors Example.barrow_only (1 # 2) false Example.two_tiles)))
  = Some [(CStr "barrow", [spec_world_box Example.det1; spec_world_box Example.det2])].
Proof. vm_compute. reflexivity. Qed.

(** C9, as stated, fails in detection mode: the feature written for the two
    overlapping tiles of the example carries the attribute [score]. *)
Lemma C9_counterexample :
  exists d r,
    dataset_at Example.od_output
      (snd (object_detection_vectors Example.barrow_only (1 # 2) false Example.two_tiles))
    = Some d
    /\ In r d
    /\ attributes r = ["label"; "score"]%string
    /\ ~ label_and_optional_path r.
Proof.
  eexists. eexists. split; [vm_compute; reflexivity|].
  split; [left; reflexivity|]. split; [reflexivity|].
  intros [H|H]; discriminate H.
Qed.

(** C9, amended.  Every feature written in detection mode carries the
    attributes label and score, and prediction_path when the paths are kept;
    every feature written in segmentation mode carries the attribute label,
    and prediction_path when the paths are kept. *)
Theorem C9_written_attributes
  (m : mode) (predictions_dirs_dict : dict) (threshold : Q) (keep_ml_paths : bool)
  (s s' : state) (p : string) :
  vectorize m predictions_dirs_dict threshold keep_ml_paths s = (Returned p, s') ->
  p <> ""%string ->
  exists out d,
    path_str out = p /\ dataset_at out s' = Some d
    /\ Forall (fun r => attributes r = written_attributes m keep_ml_paths) d.
Proof.
  intros H Hp. destruct m; cbn [vectorize] in H.
  - apply od_vectors_inv in H. destruct H as (first_dir & _ & [[-> _]|H]); [congruence|].
    destruct H as (crs & appended & d & s1 & Hex & Hres & _ & -> & ->).
    exists (child (parent first_dir) "object_detection.gpkg"), d.
    split; [reflexivity|]. split.
    + unfold dataset_at. simpl fs. now rewrite find_file_written.
    + assert (Hu : uniform (od_columns keep_ml_paths) (concat appended)).
      { apply uniform_concat. eapply Forall_impl; [|exact Hex].
        intros d0. apply extracted_uniform. }
      pose proof (resolve_overlaps_attributes _ _ _ Hres Hu) as Hattr.
      destruct keep_ml_paths; exact Hattr.
  - apply seg_vectors_inv in H. destruct H as (first_dir & _ & [[-> _]|H]); [congruence|].
    destruct H as (crs & appended & d & s1 & Hex & Hres & _ & -> & ->).
    exists (child (parent first_dir) "semantic_segmentation.gpkg"), d.
    split; [reflexivity|]. split.
    + unfold dataset_at. simpl fs. now rewrite find_file_written.
    + assert (Hu : uniform (seg_columns keep_ml_paths) (concat appended)).
      { apply uniform_concat. eapply Forall_impl; [|exact Hex].
        intros d0. apply traced_uniform. }
      pose proof (resolve_overlaps_attributes _ _ _ Hres Hu) as Hattr.
      destruct keep_ml_paths; exact Hattr.
Qed.

Lemma C9_witness :
  exists out d,
    path_str out = "/data/run/object_detection.gpkg"%string
    /\ dataset_at out
         (snd (object_detection_vectors Example.barrow_only (1 # 2) true Example.two_tiles))
       = Some d
    /\ Forall (fun r => attributes r = written_attributes Detection true) d.
Proof.
  apply (C9_written_attributes Detection Example.barrow_only (1 # 2) true Example.two_tiles).
  - vm_compute. reflexivity.
  - discriminate.
Defined.

(** * Further properties of the code *)

(** ** Paths and the file system *)

Lemma list_eqb_eq (l m : list string) : list_eqb String.eqb l m = true <-> l = m.
Proof.
  revert m. induction l as [|x l IH]; intros [|y m]; simpl; split; intros H;
    try reflexivity; try discriminate.
  - apply andb_true_iff in H. destruct H as [Hxy Hlm].
    apply String.eqb_eq in Hxy. apply IH in Hlm. congruence.
  - injection H as -> ->. rewrite String.eqb_refl. now apply IH.
Qed.

Lemma path_eqb_eq (p q : path) : path_eqb p q = true <-> p = q.
Proof.
  split; [|intros ->; apply path_eqb_refl].
  unfold path_eqb. intros H. apply andb_true_iff in H. destruct H as [Ha Hs].
  apply Bool.eqb_prop in Ha. apply list_eqb_eq in Hs.
  destruct p, q; simpl in *. congruence.
Qed.

Lemma find_file_remove_same (p : path) (f : filesystem) :
  find_file p (remove_file p f) = None.
Proof.
  unfold remove_file. induction f as [|[q x] f IH]; [reflexivity|].
  cbn [filter fst]. destruct (path_eqb q p) eqn:E; cbn [negb]; [exact IH|].
  cbn [find_file]. now rewrite E.
Qed.

Lemma find_file_remove_other (p q : path) (f : filesystem) :
  q <> p -> find_file q (remove_file p f) = find_file q f.
Proof.
  intros Hne. unfold remove_file. induction f as [|[r x] f IH]; [reflexivity|].
  cbn [filter fst]. destruct (path_eqb r p) eqn:E; cbn [negb find_file].
  - apply path_eqb_eq in E. subst r.
    destruct (path_eqb p q) eqn:F; [apply path_eqb_eq in F; congruence | exact IH].
  - now rewrite IH.
Qed.

Lemma find_file_cons_other (p q : path) (x : file) (f : filesystem) :
  q <> p -> find_file q ((p, x) :: f) = find_file q f.
Proof.
  intros Hne. cbn [find_file]. destruct (path_eqb p q) eqn:E; [|reflexivity].
  apply path_eqb_eq in E. congruence.
Qed.

(** X1. A returning call of either entry point either returns the empty
    string and leaves the file system as it was, or returns the path of the
    dataset named after the mode in the parent of the first directory of the
    dictionary, which now holds a vector dataset; every other path holds
    what it held before. *)
Theorem X1_one_dataset_beside_first_directory
  (m : mode) (predictions_dirs_dict : dict) (threshold : Q) (keep_ml_paths : bool)
  (s s' : state) (p : string) :
  vectorize m predictions_dirs_dict threshold keep_ml_paths s = (Returned p, s') ->
  exists first_dir,
    first (values predictions_dirs_dict) = Returned first_dir
    /\ ((p = ""%string /\ fs s' = fs s)
        \/ (p = path_str (child (parent first_dir) (output_name m))
            /\ (exists d, dataset_at (child (parent first_dir) (output_name m)) s' = Some d)
            /\ forall q, q <> child (parent first_dir) (output_name m) ->
                         find_file q (fs s') = find_file q (fs s))).
Proof.
  intros H. destruct m; cbn [vectorize output_name] in *.
  - apply od_vectors_inv in H. destruct H as (first_dir & Hfirst & H).
    exists first_dir. split; [exact Hfirst|].
    destruct H as [H|(crs & appended & d & s1 & _ & _ & Hfs & -> & ->)]; [left; exact H|].
    right. split; [reflexivity|]. split.
    + exists d. unfold dataset_at. cbn [fs]. now rewrite find_file_written.
    + intros q Hq. cbn [fs].
      rewrite find_file_cons_other, find_file_remove_other by exact Hq. now rewrite Hfs.
  - apply seg_vectors_inv in H. destruct H as (first_dir & Hfirst & H).
    exists first_dir. split; [exact Hfirst|].
    destruct H as [H|(crs & appended & d & s1 & _ & _ & Hfs & -> & ->)]; [left; exact H|].
    right. split; [reflexivity|]. split.
    + exists d. unfold dataset_at. cbn [fs]. now rewrite find_file_written.
    + intros q Hq. cbn [fs].
      rewrite find_file_cons_other, find_file_remove_other by exact Hq. now rewrite Hfs.
Qed.

Lemma X1_witness :
  exists first_dir,
    first (values Example.both_labels) = Returned first_dir
    /\ (("/data/run/object_detection.gpkg"%string = ""%string
         /\ fs (snd (object_detection_vectors Example.both_labels (1 # 2) false
                       Example.two_labels))
            = fs Example.two_labels)
        \/ ("/data/run/object_detection.gpkg"%string
            = path_str (child (parent first_dir) (output_name Detection))
            /\ (exists d,
                   dataset_at (child (parent first_dir) (output_name Detection))
                     (snd (object_detection_vectors Example.both_labels (1 # 2) false
                             Example.two_labels)) = Some d)
            /\ forall q, q <> child (parent first_dir) (output_name Detection) ->
                 find_file q
                   (fs (snd (object_detection_vectors Example.both_labels (1 # 2) false
                               Example.two_labels)))
                 = find_file q (fs Example.two_labels))).
Proof.
  apply (X1_one_dataset_beside_first_directory
           Detection Example.both_labels (1 # 2) false Example.two_labels).
  vm_compute. reflexivity.
Defined.

(** ** Nothing above the threshold *)

Lemma filter_nothing_above (t : Q) (recs : list detection) :
  Forall (fun r => dscore r <= t) recs ->
  filter (fun r => Qltb t (dscore r)) recs = [].
Proof.
  induction 1 as [|r recs Hr _ IH]; [reflexivity|]. cbn [filter].
  destruct (Qltb t (dscore r)) eqn:E; [|exact IH].
  apply Qltb_true in E. exfalso. eapply Qlt_not_le; eauto.
Qed.

Lemma od_file_nothing_above ptp t k (acc : od_acc) (file : path) (s : state) :
  nothing_above (fs s) t (joinpath ptp file) ->
  exists crs s',
    od_file ptp t k acc file s = (Returned (fst acc, crs), s') /\ fs s' = fs s.
Proof.
  intros [Hzero|(size & r0 & recs & Hfile & Hlow)].
  - rewrite (od_file_skips _ _ _ _ _ _ Hzero). destruct acc as [app crs].
    exists crs. eexists. split; reflexivity.
  - unfold od_file. cbn [bind M_monad]. rewrite (os_stat_size_found _ _ _ Hfile).
    cbn [st_size]. destruct (negb (size =? 0)%N).
    + unfold pd_read_csv. cbn [bind M_monad emit get_fs fs]. rewrite Hfile.
      rewrite read_csv_lines_of. unfold lift at 1.
      rewrite set_columns_lines_of. unfold lift at 1.
      rewrite detection_records_spec, (filter_nothing_above _ _ Hlow).
      destruct (snd acc) as [code|]; eexists; eexists; split; reflexivity.
    + destruct acc as [app crs]. exists crs. eexists. split; reflexivity.
Qed.

Lemma od_files_nothing_above ptp t k (files : list path) :
  forall (acc : od_acc) s,
    Forall (fun f => nothing_above (fs s) t (joinpath ptp f)) files ->
    exists crs s',
      foldM (od_file ptp t k) acc files s = (Returned (fst acc, crs), s')
      /\ fs s' = fs s.
Proof.
  induction files as [|f files IH]; intros acc s H.
  - destruct acc as [app crs]. exists crs, s. split; reflexivity.
  - pose proof (Forall_inv H) as Hf. pose proof (Forall_inv_tail H) as Hrest.
    destruct (od_file_nothing_above ptp t k acc f s Hf) as (crs1 & s1 & Hrun1 & Hfs1).
    destruct (IH (fst acc, crs1) s1) as (crs2 & s2 & Hrun2 & Hfs2).
    { now rewrite Hfs1. }
    exists crs2, s2. split; [|congruence].
    cbn [foldM bind M_monad]. rewrite Hrun1. exact Hrun2.
Qed.

Lemma od_labels_nothing_above ptp t k (d : dict) :
  forall (acc : od_acc) s,
    Forall (nothing_above (fs s) t) (prediction_files (fs s) d ptp) ->
    exists crs s',
      foldM (od_label ptp t k) acc d s = (Returned (fst acc, crs), s')
      /\ fs s' = fs s.
Proof.
  induction d as [|item d IH]; intros acc s H.
  - destruct acc as [app crs]. exists crs, s. split; reflexivity.
  - unfold prediction_files in H. cbn [flat_map] in H. apply Forall_app in H.
    destruct H as [Hitem Hrest].
    set (s0 := mkState (fs s) (log s ++ [EvGlob (snd item)])).
    destruct (od_files_nothing_above ptp t k (listing (fs s) (snd item) ".txt") acc s0)
      as (crs1 & s1 & Hrun1 & Hfs1).
    { rewrite Forall_forall in *. intros f Hf. apply Hitem. now apply in_map. }
    destruct (IH (fst acc, crs1) s1) as (crs2 & s2 & Hrun2 & Hfs2).
    { rewrite Hfs1. exact Hrest. }
    exists crs2, s2. split; [|rewrite Hfs2, Hfs1; reflexivity].
    cbn [foldM bind M_monad]. unfold od_label at 1. cbn [bind M_monad].
    rewrite glob_run. fold s0. rewrite Hrun1. exact Hrun2.
Qed.



Lemma pixels_In_value (image : list (list float)) (q : pixel) :
  In q (pixels image) -> exists l, In l image /\ In (pval q) l.
Proof.
  unfold pixels. intros H. apply in_flat_map in H. destruct H as ([i l] & Hl & Hq).
  apply in_map_iff in Hq. destruct Hq as ([j v] & <- & Hv).
  unfold enumerate in Hl, Hv. apply in_combine_r in Hl, Hv. exists l. auto.
Qed.

Lemma below_not_one (t : Q) (v : float) :
  fge v (Fin t) = false -> is_one (spec_binarize_value t v) = false.
Proof.
  intros H. unfold spec_binarize_value. rewrite H.
  destruct v as [a|]; [|reflexivity]. simpl in H. simpl. unfold Qltb. now rewrite H.
Qed.

Lemma filter_none {A : Type} (f : A -> bool) (l : list A) :
  (forall x, In x l -> f x = false) -> filter f l = [].
Proof.
  induction l as [|x l IH]; intros H; [reflexivity|]. cbn [filter].
  rewrite (H x) by (left; reflexivity). apply IH. intros y Hy. apply H. now right.
Qed.

Lemma no_foreground_polygons (image : list (list float)) (t : Q) (tr : affine) :
  Forall (Forall (fun v => fge v (Fin t) = false)) image ->
  foreground_polygons (binarize image t) tr = [].
Proof.
  intros Hlow. rewrite foreground_polygons_regions.
  rewrite filter_none; [reflexivity|]. intros region Hregion.
  pose proof (components_connected pix_adj (pixels (binarize image t))) as Hconn.
  rewrite Forall_forall in Hconn. specialize (Hconn region Hregion).
  destruct region as [|p rest]; [destruct Hconn; congruence|].
  assert (Hp : In p (pixels (binarize image t))).
  { apply (components_In pix_adj). exists (p :: rest). split; [exact Hregion|now left]. }
  cbn [region_value]. rewrite binarize_spec, pixels_map in Hp.
  apply in_map_iff in Hp. destruct Hp as (q & <- & Hq). cbn [pval].
  apply pixels_In_value in Hq. destruct Hq as (l & Hl & Hv).
  apply below_not_one. rewrite Forall_forall in Hlow.
  specialize (Hlow l Hl). rewrite Forall_forall in Hlow. now apply Hlow.
Qed.

Lemma open_raster_found (p : path) (s : state) (size : N) (r : raster) :
  find_file p (fs s) = Some (mkFile size (RasterFile r)) ->
  open_raster p s = (Returned r, mkState (fs s) (log s ++ [EvOpenRaster p])).
Proof. intros H. unfold open_raster. cbn [bind M_monad emit get_fs fs]. now rewrite H. Qed.

Lemma seg_file_no_foreground label t k (acc : seg_acc) (file : path) (s : state) :
  no_foreground (fs s) t file ->
  exists crs s',
    seg_file label t k acc file s = (Returned (fst acc, crs), s') /\ fs s' = fs s.
Proof.
  intros (size & r & Hfile & Hlow). unfold seg_file. cbn [bind M_monad].
  rewrite (open_raster_found _ _ _ _ Hfile), (no_foreground_polygons _ _ _ Hlow).
  eexists. eexists. split; reflexivity.
Qed.

Lemma seg_files_no_foreground label t k (files : list path) :
  forall (acc : seg_acc) s,
    Forall (no_foreground (fs s) t) files ->
    exists crs s',
      foldM (seg_file label t k) acc files s = (Returned (fst acc, crs), s')
      /\ fs s' = fs s.
Proof.
  induction files as [|f files IH]; intros acc s H.
  - destruct acc as [app crs]. exists crs, s. split; reflexivity.
  - pose proof (Forall_inv H) as Hf. pose proof (Forall_inv_tail H) as Hrest.
    destruct (seg_file_no_foreground label t k acc f s Hf) as (crs1 & s1 & Hrun1 & Hfs1).
    destruct (IH (fst acc, crs1) s1) as (crs2 & s2 & Hrun2 & Hfs2).
    { now rewrite Hfs1. }
    exists crs2, s2. split; [|congruence].
    cbn [foldM bind M_monad]. rewrite Hrun1. exact Hrun2.
Qed.

Lemma seg_labels_no_foreground t k (d : dict) :
  forall (acc : seg_acc) s,
    Forall (no_foreground (fs s) t) (raster_files (fs s) d) ->
    exists crs s',
      foldM (seg_label t k) acc d s = (Returned (fst acc, crs), s')
      /\ fs s' = fs s.
Proof.
  induction d as [|[label dir] d IH]; intros acc s H.
  - destruct acc as [app crs]. exists crs, s. split; reflexivity.
  - unfold raster_files in H. cbn [flat_map snd] in H. apply Forall_app in H.
    destruct H as [Hitem Hrest].
    set (s0 := mkState (fs s) (log s ++ [EvGlob dir])).
    destruct (seg_files_no_foreground label t k (listing (fs s) dir ".tif") acc s0 Hitem)
      as (crs1 & s1 & Hrun1 & Hfs1).
    destruct (IH (fst acc, crs1) s1) as (crs2 & s2 & Hrun2 & Hfs2).
    { rewrite Hfs1. exact Hrest. }
    exists crs2, s2. split; [|rewrite Hfs2, Hfs1; reflexivity].
    cbn [foldM bind M_monad]. unfold seg_label at 1. cbn [bind M_monad].
    rewrite glob_run. fold s0. rewrite Hrun1. exact Hrun2.
Qed.



(** ** The coordinate reference system of the dataset *)

Lemma od_file_keeps_crs ptp t k (acc acc' : od_acc) file s s' (code : Z) :
  snd acc = Some code ->
  od_file ptp t k acc file s = (Returned acc', s') ->
  snd acc' = Some code.
Proof.
  intros Hcrs H. unfold od_file in H. inv_bind H as size s1 Hsize.
  destruct (negb (size =? 0)%N).
  - inv_bind H as tab s2 Hread. inv_bind H as named s3 Hcols.
    inv_bind H as crs s4 Hc. rewrite Hcrs in Hc.
    apply ret_Returned in Hc. destruct Hc as [-> ->].
    inv_bind H as d s5 Hrec.
    destruct (0 <? List.length d)%nat; apply ret_Returned in H; destruct H as [-> _];
      reflexivity.
  - apply ret_Returned in H. destruct H as [-> _]. exact Hcrs.
Qed.

Lemma pd_read_csv_found (p : path) (s s' : state) (tab : list (list cell)) :
  pd_read_csv p s = (Returned tab, s') ->
  exists size lines,
    find_file p (fs s) = Some (mkFile size (Table lines)) /\ read_csv lines = Returned tab.
Proof.
  unfold pd_read_csv. cbn [bind M_monad emit get_fs fs].
  destruct (find_file p (fs s)) as [[size [lines| | |]]|]; try discriminate.
  unfold lift. intros H. injection H as H _. eauto.
Qed.

Lemma os_stat_size_inv (p : path) (s s' : state) (size : N) :
  os_stat_size p s = (Returned size, s') ->
  fs s' = fs s /\ exists x, find_file p (fs s) = Some x /\ st_size x = size.
Proof.
  unfold os_stat_size. cbn [bind M_monad emit get_fs fs].
  destruct (find_file p (fs s)) as [x|]; [|discriminate].
  intros H. injection H as <- <-. eauto.
Qed.

(** X4. In detection mode the coordinate reference system is set once: a
    non-empty prediction file met while none is set fixes it to the EPSG code
    in the first line of that file, whether or not any of its records passes
    the threshold; once set, no later file of any label changes it, whatever
    EPSG code that file carries. *)
Theorem X4_detection_crs_set_by_first_file
  (path_to_predictions : path) (threshold : Q) (keep_ml_paths : bool) :
  (forall (acc acc' : od_acc) file s s' x,
      snd acc = None ->
      find_file (joinpath path_to_predictions file) (fs s) = Some x ->
      st_size x <> 0%N ->
      od_file path_to_predictions threshold keep_ml_paths acc file s = (Returned acc', s') ->
      exists lines t named code,
        data x = Table lines
        /\ read_csv lines = Returned t
        /\ set_columns schema t = Returned named
        /\ from_epsg named = Returned code
        /\ snd acc' = Some code)
  /\ (forall (d : dict) (acc acc' : od_acc) s s' code,
        snd acc = Some code ->
        foldM (od_label path_to_predictions threshold keep_ml_paths) acc d s
        = (Returned acc', s') ->
        snd acc' = Some code).
Proof.
  split.
  - intros acc acc' file s s' x Hnone Hfile Hsize H.
    unfold od_file in H. inv_bind H as size s1 Hstat.
    apply os_stat_size_inv in Hstat. destruct Hstat as (Hfs1 & x' & Hx' & <-).
    assert (x' = x) by congruence. subst x'.
    destruct (N.eqb_spec (st_size x) 0) as [|_]; [congruence|]. cbn [negb] in H.
    inv_bind H as tab s2 Hread. apply pd_read_csv_found in Hread.
    destruct Hread as (size & lines & Hfound & Hlines).
    rewrite Hfs1, Hfile in Hfound. injection Hfound as ->.
    inv_bind H as named s3 Hcols. apply lift_Returned in Hcols. destruct Hcols as [Hcols ->].
    inv_bind H as crs s4 Hc. rewrite Hnone in Hc.
    inv_bind Hc as code s5 Hcode. apply lift_Returned in Hcode. destruct Hcode as [Hcode ->].
    apply ret_Returned in Hc. destruct Hc as [-> ->].
    inv_bind H as d s6 Hrec.
    exists lines, tab, named, code.
    destruct (0 <? List.length d)%nat; apply ret_Returned in H; destruct H as [-> _];
      auto.
  - intros d acc acc' s s' code Hcrs H.
    eapply (foldM_inv _ (fun a : od_acc => snd a = Some code)); [|exact Hcrs|exact H].
    intros a item s0 a' s0' Ha Hitem. unfold od_label in Hitem.
    inv_bind Hitem as file_list s1 Hglob.
    eapply (foldM_inv _ (fun a : od_acc => snd a = Some code)); [|exact Ha|exact Hitem].
    intros. eapply od_file_keeps_crs; eauto.
Qed.

Lemma X4_witness :
  exists lines t named code,
    data (Example.txt [line_of Example.det1]) = Table lines
    /\ read_csv lines = Returned t
    /\ set_columns schema t = Returned named
    /\ from_epsg named = Returned code
    /\ snd (([], Some 3794%Z) : od_acc) = Some code.
Proof.
  apply (proj1 (X4_detection_crs_set_by_first_file Example.barrow_dir 1 false)
           ([], None) ([], Some 3794%Z) (child Example.barrow_dir "tile_0.txt")
           Example.two_tiles
           (snd (od_file Example.barrow_dir 1 false ([], None)
                   (child Example.barrow_dir "tile_0.txt") Example.two_tiles))
           (Example.txt [line_of Example.det1])).
  - reflexivity.
  - reflexivity.
  - discriminate.
  - vm_compute. reflexivity.
Defined.

Lemma foldM_app {A S : Type} (f : S -> A -> M S) (l m : list A) (acc : S) (s : state) :
  foldM f acc (l ++ m) s = bind (foldM f acc l) (fun a => foldM f a m) s.
Proof.
  revert acc s. induction l as [|x l IH]; intros acc s; [reflexivity|].
  cbn [app foldM bind M_monad]. destruct (f acc x s) as [[a| |] s1]; try reflexivity.
  apply IH.
Qed.

Lemma open_raster_inv (p : path) (s s' : state) (r : raster) :
  open_raster p s = (Returned r, s') ->
  exists size, find_file p (fs s) = Some (mkFile size (RasterFile r)).
Proof.
  unfold open_raster. cbn [bind M_monad emit get_fs fs].
  destruct (find_file p (fs s)) as [[size [| r' | |]]|]; try discriminate.
  intros H. injection H as <- _. eauto.
Qed.

Lemma seg_file_crs label t k (acc acc' : seg_acc) file s s' :
  seg_file label t k acc file s = (Returned acc', s') ->
  exists size r,
    find_file file (fs s) = Some (mkFile size (RasterFile r))
    /\ snd acc' = raster_crs r.
Proof.
  intros H. unfold seg_file in H. inv_bind H as src s1 Hopen.
  apply open_raster_inv in Hopen. destruct Hopen as (size & Hfile).
  exists size, src. split; [exact Hfile|].
  destruct (foreground_polygons _ _).
  - apply ret_Returned in H. destruct H as [-> _]. reflexivity.
  - inv_bind H as dis s2 Hdis. inv_bind H as ex s3 Hex.
    apply ret_Returned in H. destruct H as [-> _]. reflexivity.
Qed.



(** ** The dictionary of prediction directories *)

Lemma existsb_eqb_In (c : string) (ks : list string) :
  existsb (String.eqb c) ks = true <-> In c ks.
Proof.
  rewrite existsb_exists. split.
  - intros (x & Hx & E). apply String.eqb_eq in E. now subst.
  - intros H. exists c. split; [exact H|apply String.eqb_refl].
Qed.

Lemma add_key_In (c l : string) (ks : list string) :
  In l (add_key c ks) <-> l = c \/ In l ks.
Proof.
  unfold add_key. destruct (existsb (String.eqb c) ks) eqn:E.
  - apply existsb_eqb_In in E. split; [auto|]. intros [->|H]; auto.
  - rewrite in_app_iff. simpl. intuition.
Qed.

Lemma add_key_NoDup (c : string) (ks : list string) :
  NoDup ks -> NoDup (add_key c ks).
Proof.
  intros H. unfold add_key. destruct (existsb (String.eqb c) ks) eqn:E; [exact H|].
  apply NoDup_app; [exact H | repeat constructor; simpl; tauto |].
  intros x Hx [<-|[]]. apply existsb_eqb_In in Hx. congruence.
Qed.

Lemma dict_set_keys (k : string) (v : path) (d : dict) :
  map fst (dict_set k v d) = add_key k (map fst d).
Proof.
  unfold add_key. induction d as [|[k' v'] d IH]; [reflexivity|].
  cbn [dict_set map fst existsb]. rewrite (String.eqb_sym k k').
  destruct (String.eqb k' k); [reflexivity|]. cbn [map fst orb]. rewrite IH.
  destruct (existsb (String.eqb k) (map fst d)); reflexivity.
Qed.

Lemma labels_loop_keys (body : dict -> string -> M dict) :
  (forall d label s d1 s1,
      body d label s = (Returned d1, s1) -> exists dir, d1 = dict_set label dir d) ->
  forall requested d0 s d s',
    foldM body d0 requested s = (Returned d, s') ->
    NoDup (map fst d0) ->
    NoDup (map fst d)
    /\ forall l, In l (map fst d) <-> In l (map fst d0) \/ In l requested.
Proof.
  intros Hbody requested.
  induction requested as [|label requested IH]; intros d0 s d s' H Hnd.
  - apply ret_Returned in H. destruct H as [-> _]. split; [exact Hnd|]. simpl. tauto.
  - cbn [foldM] in H. inv_bind H as d1 s1 Hstep.
    destruct (Hbody _ _ _ _ _ Hstep) as (dir & ->).
    destruct (IH _ _ _ _ H) as [Hnd' Hin].
    { rewrite dict_set_keys. now apply add_key_NoDup. }
    split; [exact Hnd'|]. intros l. rewrite Hin, dict_set_keys, add_key_In.
    simpl. intuition.
Qed.

(** X6. The dictionary the inference step returns has exactly the requested
    labels as keys, each once: a label requested twice is predicted twice
    and keeps one entry. *)
Theorem X6_one_directory_per_label
  (m : mode) (w : collaborators) (labels : list string) (images_dir : path)
  (s s' : state) (d : dict) :
  run_aitlas m w labels images_dir s = (Returned d, s') ->
  NoDup (map fst d) /\ forall l, In l (map fst d) <-> In l labels.
Proof.
  intros H.
  assert (Hgoal : NoDup (map fst d)
                  /\ forall l, In l (map fst d) <-> In l (map fst (@nil (string * path)))
                                                   \/ In l labels).
  { destruct m; cbn [run_aitlas] in H;
      [unfold run_aitlas_object_detection in H | unfold run_aitlas_segmentation in H];
      (eapply labels_loop_keys; [|exact H|constructor]);
      intros d0 label s0 d1 s1 Hstep;
      inv_bind Hstep as u s2 Hload; inv_bind Hstep as preds_dir s3 Hpred;
      apply ret_Returned in Hstep; destruct Hstep as [-> _]; eauto. }
  destruct Hgoal as [Hnd Hin]. split; [exact Hnd|].
  intros l. rewrite Hin. simpl. tauto.
Qed.

Lemma X6_witness :
  NoDup (map fst Example.repeated_dict)
  /\ forall l, In l (map fst Example.repeated_dict) <-> In l Example.repeated_labels.
Proof.
  apply (X6_one_directory_per_label
           Detection Example.collab Example.repeated_labels Example.slrm_dir
           Example.with_dem (snd Example.repeated_run) Example.repeated_dict).
  vm_compute. reflexivity.
Defined.

(** ** The orchestrator, further *)

(** X7. A request that names no label, in either supported mode, makes
    [main_routine] raise [IndexError]: the inference step returns an empty
    dictionary and the vectorisation takes its first value.  The exception
    leaves the run in the state the visualisation block left behind (one
    more log line apart), so nothing is cleaned up. *)
Theorem X7_no_labels_raise_IndexError
  (w : collaborators) (inp : inputs) (s s1 : state)
  (vis_path : path) (vrt_path : option path) :
  supported (ml_type inp) ->
  labels inp = [] ->
  visualize w inp (run_dir w inp) (prelude w inp s) = (Returned (vis_path, vrt_path), s1) ->
  main_routine w inp s
  = (Raised IndexError, mkState (fs s1) (log s1 ++ [EvLog "inference_inputs"])).
Proof.
  intros Hmode Hlabels Hvis. unfold main_routine, mkdir.
  cbn [bind M_monad emit fs log]. rewrite <- app_assoc.
  change (mkState (fs s) (log s ++ [EvMkdir (run_dir w inp)] ++ [EvLog "logfile"]))
    with (prelude w inp s).
  rewrite Hvis. unfold infer. cbn [bind M_monad emit fs log]. rewrite Hlabels.
  destruct Hmode as [-> | ->]; reflexivity.
Qed.

Lemma X7_witness :
  main_routine Example.collab Example.no_labels Example.with_dem
  = (Raised IndexError,
     mkState (fs (snd (visualize Example.collab Example.no_labels
                         (run_dir Example.collab Example.no_labels)
                         (prelude Example.collab Example.no_labels Example.with_dem))))
             (log (snd (visualize Example.collab Example.no_labels
                          (run_dir Example.collab Example.no_labels)
                          (prelude Example.collab Example.no_labels Example.with_dem)))
              ++ [EvLog "inference_inputs"])).
Proof.
  apply (X7_no_labels_raise_IndexError
           Example.collab Example.no_labels Example.with_dem _
           (mkPath true ["data"; "dem_20240101_120000"; "visualization"]%string) None).
  - right. reflexivity.
  - reflexivity.
  - vm_compute. reflexivity.
Defined.

Lemma glob_no_rmtree dir suffix : respects (logs_only no_rmtree) (glob dir suffix).
Proof. unfold glob. repeat respects_step. Qed.

Lemma to_file_no_rmtree p crs d : respects (logs_only no_rmtree) (to_file p crs d).
Proof. unfold to_file. repeat respects_step. Qed.

#[local] Hint Resolve glob_no_rmtree to_file_no_rmtree : adaf.

Lemma od_vectors_no_rmtree dict t k :
  respects (logs_only no_rmtree) (object_detection_vectors dict t k).
Proof.
  unfold object_detection_vectors, od_label, od_file, os_stat_size, pd_read_csv.
  repeat respects_step.
Qed.

Lemma seg_vectors_no_rmtree dict t k :
  respects (logs_only no_rmtree) (semantic_segmentation_vectors dict t k).
Proof.
  unfold semantic_segmentation_vectors, seg_label, seg_file, open_raster.
  repeat respects_step.
Qed.

Lemma run_aitlas_no_rmtree m w requested images_dir :
  respects (logs_only no_rmtree) (run_aitlas m w requested images_dir).
Proof.
  destruct m; cbn [run_aitlas];
    unfold run_aitlas_object_detection, run_aitlas_segmentation; repeat respects_step.
Qed.

(** X8. With both retention flags set, [main_routine] removes no directory
    tree, in any mode and whatever its outcome: the predictions and the
    visualisations stay. *)
Theorem X8_retention_flags_keep_directories
  (w : collaborators) (inp : inputs) (s s' : state) (o : outcome string) :
  save_ml_output inp = true ->
  save_vis inp = true ->
  main_routine w inp s = (o, s') ->
  logs_only no_rmtree s s'.
Proof.
  intros Hml Hvis. revert s o s'. change (respects (logs_only no_rmtree) (main_routine w inp)).
  unfold main_routine, mkdir, cleanup, infer, for_each, glob_label_tif.
  rewrite Hml, Hvis. cbn [negb].
  pose proof visualize_no_rmtree. pose proof od_vectors_no_rmtree.
  pose proof seg_vectors_no_rmtree.
  pose proof (run_aitlas_no_rmtree Detection). pose proof (run_aitlas_no_rmtree Segmentation).
  repeat respects_step.
Qed.

Lemma X8_witness :
  logs_only no_rmtree Example.with_dem
    (snd (main_routine Example.collab Example.keep_all Example.with_dem)).
Proof.
  apply (X8_retention_flags_keep_directories
           Example.collab Example.keep_all Example.with_dem _
           (fst (main_routine Example.collab Example.keep_all Example.with_dem))).
  - reflexivity.
  - reflexivity.
  - apply surjective_pairing.
Defined.

(** ** Removing the visualisations *)

Lemma under_eq (d p q : path) : path_eqb q p = true -> under d q = under d p.
Proof. intros H. apply path_eqb_eq in H. now subst. Qed.

Lemma find_file_rmtree (d p : path) (f : filesystem) :
  find_file p (filter (fun qx => negb (under d (fst qx))) f)
  = if under d p then None else find_file p f.
Proof.
  induction f as [|[q x] f IH]; [now destruct (under d p)|].
  cbn [filter fst find_file]. destruct (path_eqb q p) eqn:E.
  - rewrite (under_eq d p q E). destruct (under d p) eqn:U; cbn [negb].
    + exact IH.
    + cbn [find_file]. now rewrite E.
  - destruct (under d q); cbn [negb]; [exact IH|]. cbn [find_file]. now rewrite E.
Qed.

Lemma rmtree_run (d : path) (s : state) :
  rmtree d s
  = (Returned tt,
     mkState (filter (fun qx => negb (under d (fst qx))) (fs s)) (log s ++ [EvRmtree d])).
Proof. reflexivity. Qed.

(** X9. Removing the visualisations.  With [save_vis] set, the last block
    of [main_routine] does nothing.  Without it, a returning run has removed
    every file below the visualisation directory and the mosaic, and has
    left every other file as it was. *)
Theorem X9_cleanup_removes_the_visualisations
  (inp : inputs) (vis_path : path) (vrt_path : option path) (s s' : state) :
  cleanup inp vis_path vrt_path s = (Returned tt, s') ->
  if save_vis inp then s' = s
  else (forall p, under vis_path p = true -> find_file p (fs s') = None)
       /\ (forall v, vrt_path = Some v -> find_file v (fs s') = None)
       /\ (forall p, under vis_path p = false -> vrt_path <> Some p ->
                     find_file p (fs s') = find_file p (fs s)).
Proof.
  unfold cleanup. destruct (save_vis inp); cbn [negb].
  - intros H. apply ret_Returned in H. now destruct H.
  - cbn [bind M_monad]. rewrite rmtree_run.
    set (f1 := filter (fun qx => negb (under vis_path (fst qx))) (fs s)).
    destruct vrt_path as [v|].
    + unfold unlink. cbn [bind M_monad emit get_fs fs log].
      destruct (find_file v f1) as [x|] eqn:V; [|discriminate].
      cbn [put_fs fs log]. intros H. injection H as <-. cbn [fs].
      split; [|split].
      * intros p Hp. destruct (path_eqb v p) eqn:E.
        -- apply path_eqb_eq in E. subst p. apply find_file_remove_same.
        -- rewrite find_file_remove_other.
           ++ unfold f1. now rewrite find_file_rmtree, Hp.
           ++ intros ->. rewrite path_eqb_refl in E. discriminate.
      * intros v' Hv'. injection Hv' as <-. apply find_file_remove_same.
      * intros p Hp Hne. rewrite find_file_remove_other by congruence.
        unfold f1. now rewrite find_file_rmtree, Hp.
    + intros H. apply ret_Returned in H. destruct H as [_ ->]. cbn [fs].
      split; [|split].
      * intros p Hp. unfold f1. now rewrite find_file_rmtree, Hp.
      * discriminate.
      * intros p Hp _. unfold f1. now rewrite find_file_rmtree, Hp.
Qed.

(** X10. When the visualisations are not kept and the mosaic lies below the
    visualisation directory, the last block of [main_routine] raises
    [FileNotFoundError]: the directory tree is removed first, and the mosaic
    is unlinked after it. *)
Theorem X10_cleanup_fails_on_mosaic_inside_directory
  (inp : inputs) (vis_path vrt : path) (s : state) :
  save_vis inp = false ->
  under vis_path vrt = true ->
  cleanup inp vis_path (Some vrt) s
  = (Raised FileNotFoundError,
     mkState (filter (fun qx => negb (under vis_path (fst qx))) (fs s))
             (log s ++ [EvRmtree vis_path] ++ [EvUnlink vrt])).
Proof.
  intros Hvis Hunder. unfold cleanup. rewrite Hvis. cbn [negb bind M_monad].
  rewrite rmtree_run. unfold unlink. cbn [bind M_monad emit get_fs fs log].
  rewrite find_file_rmtree, Hunder. rewrite <- app_assoc. reflexivity.
Qed.

Lemma X9_witness :
  (forall p, under Example.slrm_dir p = true ->
             find_file p (fs (snd (cleanup Example.no_labels Example.slrm_dir
                                     (Some Example.run_mosaic) Example.finished))) = None)
  /\ (forall v, Some Example.run_mosaic = Some v ->
                find_file v (fs (snd (cleanup Example.no_labels Example.slrm_dir
                                        (Some Example.run_mosaic) Example.finished))) = None)
  /\ (forall p, under Example.slrm_dir p = false -> Some Example.run_mosaic <> Some p ->
                find_file p (fs (snd (cleanup Example.no_labels Example.slrm_dir
                                        (Some Example.run_mosaic) Example.finished)))
                = find_file p (fs Example.finished)).
Proof.
  exact (X9_cleanup_removes_the_visualisations
           Example.no_labels Example.slrm_dir (Some Example.run_mosaic) Example.finished
           (snd (cleanup Example.no_labels Example.slrm_dir
                   (Some Example.run_mosaic) Example.finished))
           eq_refl).
Defined.

Lemma X10_witness :
  cleanup Example.no_labels Example.slrm_dir (Some Example.inner_mosaic) Example.finished
  = (Raised FileNotFoundError,
     mkState (filter (fun qx => negb (under Example.slrm_dir (fst qx)))
                     (fs Example.finished))
             (log Example.finished
              ++ [EvRmtree Example.slrm_dir] ++ [EvUnlink Example.inner_mosaic])).
Proof.
  apply (X10_cleanup_fails_on_mosaic_inside_directory
           Example.no_labels Example.slrm_dir Example.inner_mosaic Example.finished).
  - reflexivity.
  - reflexivity.
Defined.

(** ** The helper files of the visualisation *)

Lemma call_Returned {A : Type} (f : external A) (s s' : state) (a : A) :
  call f s = (Returned a, s') -> f (fs s) = (Returned a, fs s') /\ log s' = log s.
Proof.
  unfold call. destruct (f (fs s)) as [o f']. intros H. injection H as -> <-. auto.
Qed.

Lemma unlink_Returned (p : path) (s s' : state) (u : unit) :
  unlink p s = (Returned u, s') ->
  fs s' = remove_file p (fs s) /\ log s' = log s ++ [EvUnlink p]
  /\ find_file p (fs s) <> None.
Proof.
  unfold unlink. cbn [bind M_monad emit get_fs fs log].
  destruct (find_file p (fs s)) as [x|]; [|discriminate].
  intros H. injection H as H. subst s'. cbn [fs log].
  split; [reflexivity|]. split; [reflexivity|discriminate].
Qed.

Lemma find_file_remove_None (p q : path) (f : filesystem) :
  find_file q f = None -> find_file q (remove_file p f) = None.
Proof.
  intros H. unfold remove_file. induction f as [|[r x] f IH]; [reflexivity|].
  cbn [find_file] in H. destruct (path_eqb r q) eqn:E; [discriminate|].
  cbn [filter fst]. destruct (path_eqb r p); cbn [negb]; [now apply IH|].
  cbn [find_file]. rewrite E. now apply IH.
Qed.

(** X11. [run_visualisations] returns only if the valid-data outline and
    the reference grid both exist after the tiles were processed, and then
    it has removed both: neither is in the file system it leaves, and the
    two removals are the only events it logs. *)
Theorem X11_visualisation_removes_its_helper_files
  (w : collaborators) (dem : path) (tile_size : Z) (save_dir : path) (nr_processes : Z)
  (s s' : state) (out_paths : path * option path) :
  run_visualisations w dem tile_size save_dir nr_processes s = (Returned out_paths, s') ->
  let refgrid := Path (String.append (drop_last 4 (path_str dem)) "_refgrid.gpkg") in
  exists valid_data_outline f1,
    poly_from_valid w dem save_dir (fs s) = (Returned valid_data_outline, f1)
    /\ find_file valid_data_outline (fs s') = None
    /\ find_file refgrid (fs s') = None
    /\ log s' = log s ++ [EvUnlink valid_data_outline] ++ [EvUnlink refgrid].
Proof.
  intros H refgrid. unfold run_visualisations in H.
  inv_bind H as outline s1 Hpoly. apply call_Returned in Hpoly. destruct Hpoly as [Hpoly L1].
  inv_bind H as tiles s2 Hgrid. apply call_Returned in Hgrid. destruct Hgrid as [_ L2].
  inv_bind H as tiles' s3 Hfilter. apply call_Returned in Hfilter. destruct Hfilter as [_ L3].
  inv_bind H as out s4 Htiled. apply call_Returned in Htiled. destruct Htiled as [_ L4].
  inv_bind H as u1 s5 Hu1. apply unlink_Returned in Hu1. destruct Hu1 as (F5 & L5 & _).
  inv_bind H as u2 s6 Hu2. apply unlink_Returned in Hu2. destruct Hu2 as (F6 & L6 & _).
  apply ret_Returned in H. destruct H as [_ ->].
  exists outline, (fs s1). split; [exact Hpoly|]. split; [|split].
  - rewrite F6. apply find_file_remove_None. rewrite F5. apply find_file_remove_same.
  - rewrite F6. apply find_file_remove_same.
  - fold refgrid in L6. rewrite L6, L5, L4, L3, L2, L1. now rewrite <- app_assoc.
Qed.

Lemma X11_witness :
  let refgrid :=
    Path (String.append (drop_last 4 (path_str Example.dem)) "_refgrid.gpkg") in
  let run :=
    run_visualisations Example.collab Example.dem 1024 (Path "/data/run") 6
      Example.with_dem in
  exists valid_data_outline f1,
    poly_from_valid Example.collab Example.dem (Path "/data/run") (fs Example.with_dem)
    = (Returned valid_data_outline, f1)
    /\ find_file valid_data_outline (fs (snd run)) = None
    /\ find_file refgrid (fs (snd run)) = None
    /\ log (snd run)
       = log Example.with_dem ++ [EvUnlink valid_data_outline] ++ [EvUnlink refgrid].
Proof.
  intros refgrid run.
  apply (X11_visualisation_removes_its_helper_files
           Example.collab Example.dem 1024 (Path "/data/run") 6 Example.with_dem (snd run)
           (mkPath true ["data"; "run"; "slrm"]%string,
            Some (mkPath true ["data"; "run"; "slrm.vrt"]%string))).
  vm_compute. reflexivity.
Defined.

(** ** Provenance *)

Lemma last_n_app {A : Type} (l m : list A) : last_n (List.length m) (l ++ m) = m.
Proof.
  unfold last_n. rewrite length_app.
  replace (List.length l + List.length m - List.length m)%nat with (List.length l) by lia.
  rewrite skipn_app, skipn_all, Nat.sub_diag. reflexivity.
Qed.

(** X12. The provenance written with a geometry record is the last three
    segments of the path of the prediction file, joined by slashes: the
    directory above the label's directory, the label's directory and the file
    name.  It does not depend on what precedes them, nor on the path being
    absolute. *)
Theorem X12_provenance_is_last_three_segments
  (is_absolute : bool) (before : list string) (a b c : string) :
  provenance (mkPath is_absolute (before ++ [a; b; c]))
  = String.concat "/" [a; b; c].
Proof.
  unfold provenance, path_parts. cbn [absolute segments].
  rewrite map_app, app_assoc.
  change (map Seg [a; b; c]) with ([Seg a; Seg b; Seg c]).
  rewrite (last_n_app _ [Seg a; Seg b; Seg c]). reflexivity.
Qed.

(** ** The keys of the dictionary *)

Lemma od_labels_rekey (f : string -> string) ptp t k (d : dict) :
  forall (acc : od_acc) s,
    foldM (od_label ptp t k) acc (rekey f d) s = foldM (od_label ptp t k) acc d s.
Proof.
  induction d as [|item d IH]; intros acc s; [reflexivity|].
  cbn [rekey map foldM bind M_monad].
  change (od_label ptp t k acc (f (fst item), snd item) s)
    with (od_label ptp t k acc item s).
  destruct (od_label ptp t k acc item s) as [[acc1| |] s1]; try reflexivity.
  apply IH.
Qed.

(** X13. [object_detection_vectors] never looks at the keys of the
    dictionary: under any renaming of the keys it behaves the same.  The
    labels of its features are those written in the prediction files. *)
Theorem X13_detection_ignores_dictionary_keys
  (f : string -> string) (predictions_dirs_dict : dict)
  (threshold : Q) (keep_ml_paths : bool) (s : state) :
  object_detection_vectors (rekey f predictions_dirs_dict) threshold keep_ml_paths s
  = object_detection_vectors predictions_dirs_dict threshold keep_ml_paths s.
Proof.
  unfold object_detection_vectors. cbn [bind M_monad].
  assert (Hv : values (rekey f predictions_dirs_dict) = values predictions_dirs_dict).
  { unfold values, rekey. rewrite map_map. reflexivity. }
  rewrite Hv. destruct (lift (first (values predictions_dirs_dict)) s) as [[ptp| |] s0];
    try reflexivity.
  now rewrite od_labels_rekey.
Qed.

(** ** Removing the raw predictions *)

Lemma shrinks_refl (s : state) : shrinks s s.
Proof. intros p H. exact H. Qed.

Lemma shrinks_trans (s1 s2 s3 : state) : shrinks s1 s2 -> shrinks s2 s3 -> shrinks s1 s3.
Proof. unfold shrinks. auto. Qed.

Lemma emit_shrinks (e : event) : respects shrinks (emit e).
Proof. intros s o s' H. injection H as _ <-. intros p Hp. exact Hp. Qed.

Lemma rmtree_shrinks (d : path) : respects shrinks (rmtree d).
Proof.
  intros s o s' H. rewrite rmtree_run in H. injection H as _ <-.
  intros p Hp. cbn [fs]. rewrite find_file_rmtree, Hp. now destruct (under d p).
Qed.

Lemma unlink_shrinks (p : path) : respects shrinks (unlink p).
Proof.
  intros s o s' H. unfold unlink in H. cbn [bind M_monad emit get_fs fs log] in H.
  destruct (find_file p (fs s)); injection H as _ <-; intros q Hq; cbn [fs].
  - now apply find_file_remove_None.
  - exact Hq.
Qed.

#[local] Hint Resolve shrinks_refl shrinks_trans emit_shrinks rmtree_shrinks
  unlink_shrinks : adaf.

Lemma cleanup_shrinks inp vis vrt : respects shrinks (cleanup inp vis vrt).
Proof. unfold cleanup. repeat respects_step. Qed.

Lemma remove_predictions_shrinks (d : dict) :
  respects shrinks (for_each d (fun item => rmtree (snd item))).
Proof. unfold for_each. repeat respects_step. Qed.

Lemma remove_predictions_removes (d : dict) :
  forall s s' (u : unit),
    for_each d (fun item => rmtree (snd item)) s = (Returned u, s') ->
    forall item q, In item d -> under (snd item) q = true -> find_file q (fs s') = None.
Proof.
  induction d as [|item0 d IH]; intros s s' u H item q Hin Hq; [contradiction|].
  unfold for_each in H. cbn [foldM] in H. inv_bind H as u1 s1 Hfirst.
  rewrite rmtree_run in Hfirst. injection Hfirst as _ <-. destruct u1.
  destruct Hin as [->|Hin].
  - eapply (remove_predictions_shrinks d); [unfold for_each; exact H|].
    cbn [fs]. now rewrite find_file_rmtree, Hq.
  - eapply IH; [unfold for_each; exact H | exact Hin | exact Hq].
Qed.



(** ** The attributes of merged features *)

Lemma FOP_In_cases {A : Type} (P : A -> A -> Prop) (l : list A) (a b : A) :
  ForallOrdPairs P l -> In a l -> In b l -> a = b \/ P a b \/ P b a.
Proof.
  induction 1 as [|x l Hx _ IH]; intros Ha Hb; [contradiction|].
  rewrite Forall_forall in Hx.
  destruct Ha as [->|Ha], Hb as [->|Hb]; auto.
Qed.

Lemma group_rows_filter (d : frame) (ks : list cell) (k : cell) :
  mapM (key_of "label") d = Returned ks ->
  group_rows d ks k = filter (fun r => cell_eqb (label_of r) k) d.
Proof.
  intros H. apply mapM_Returned in H. unfold group_rows.
  induction H as [|r v d ks Hr _ IH]; [reflexivity|].
  apply key_of_label in Hr. subst v. cbn [combine filter fst].
  destruct (cell_eqb (label_of r) k); cbn [map snd]; now rewrite IH.
Qed.

Lemma lookup_aggregated (c : string) (agg : string -> cell) (cs : list string) :
  In c cs -> lookup c (map (fun c' => (c', agg c')) cs) = Some (agg c).
Proof.
  induction cs as [|c0 cs IH]; intros H; [contradiction|]. cbn [map lookup].
  destruct (String.eqb_spec c0 c) as [->|Hne]; [reflexivity|].
  destruct H as [H|H]; [congruence|]. now apply IH.
Qed.

Lemma without_geometry_feature (k : cell) (others : row) (p : polygon) :
  without_geometry (feature k others p)
  = ("label"%string, k) :: drop_cols ["geometry"%string] others.
Proof. reflexivity. Qed.

(** X15. After overlap resolution the features of one label differ in
    their geometry only: each carries, for every column other than label and
    geometry, the first value that is not missing among all the input records
    of that label, in input order.  A feature made of one detection thus
    shows the score and the prediction path of the label's first record,
    which need not be its own. *)
Theorem X15_features_of_a_label_share_attributes (d out : frame) :
  resolve_overlaps d = Returned out ->
  (forall f1 f2,
      In f1 out -> In f2 out -> same_label f1 f2 ->
      without_geometry f1 = without_geometry f2)
  /\ (forall f c,
        In f out -> In c (columns d) ->
        c <> "label"%string -> c <> "geometry"%string ->
        lookup c f
        = Some (agg_first c (filter (fun r => cell_eqb (label_of r) (label_of f)) d))).
Proof.
  intros H. apply resolve_overlaps_inv in H.
  destruct H as (ks & groups & Hks & Hg & ->). split.
  - assert (Hdist : ForallOrdPairs
                      (fun g1 g2 : group => cell_eqb (fst g1) (fst g2) = false) groups).
    { eapply (FOP_Forall2 (fun a b => cell_eqb a b = false));
        [|exact Hg|apply group_keys_FOP].
      intros k1 k2 g1 g2 (<- & _) (<- & _) Hne. exact Hne. }
    intros f1 f2 H1 H2 Hsame.
    apply in_concat in H1, H2.
    destruct H1 as (fs1 & Hfs1 & H1), H2 as (fs2 & Hfs2 & H2).
    apply in_map_iff in Hfs1, Hfs2.
    destruct Hfs1 as (g1 & <- & Hg1), Hfs2 as (g2 & <- & Hg2).
    unfold group_features in H1, H2. apply in_map_iff in H1, H2.
    destruct H1 as (p1 & <- & _), H2 as (p2 & <- & _).
    unfold same_label in Hsame. rewrite !label_of_feature in Hsame.
    rewrite !without_geometry_feature.
    destruct (FOP_In_cases _ _ g1 g2 Hdist Hg1 Hg2) as [->|[Hne|Hne]].
    + reflexivity.
    + congruence.
    + rewrite cell_eqb_sym in Hne. congruence.
  - intros f c Hf Hc Hlabel Hgeom.
    apply in_concat in Hf. destruct Hf as (fs1 & Hfs1 & Hf).
    apply in_map_iff in Hfs1. destruct Hfs1 as (g & <- & Hgin).
    destruct (Forall2_In_r _ _ _ Hg _ Hgin) as (k & _ & (Hfst & _ & Hothers)).
    unfold group_features in Hf. apply in_map_iff in Hf. destruct Hf as (p & <- & _).
    rewrite label_of_feature, Hfst, <- (group_rows_filter _ _ _ Hks).
    unfold feature. cbn [lookup].
    destruct (String.eqb_spec "label" c) as [E|_]; [congruence|].
    destruct (String.eqb_spec "geometry" c) as [E|_]; [congruence|].
    rewrite Hothers. apply (lookup_aggregated c (fun c' => agg_first c' (group_rows d ks k))).
    unfold other_cols. apply filter_In. split; [exact Hc|].
    cbn [existsb]. rewrite orb_false_r.
    destruct (String.eqb_spec c "geometry") as [E|_]; [congruence|].
    destruct (String.eqb_spec c "label") as [E|_]; [congruence|]. reflexivity.
Qed.

Lemma X15_witness :
  (forall f1 f2,
      In f1 Example.two_barrows_resolved -> In f2 Example.two_barrows_resolved ->
      same_label f1 f2 -> without_geometry f1 = without_geometry f2)
  /\ (forall f c,
        In f Example.two_barrows_resolved -> In c (columns Example.two_barrows) ->
        c <> "label"%string -> c <> "geometry"%string ->
        lookup c f
        = Some (agg_first c (filter (fun r => cell_eqb (label_of r) (label_of f))
                                    Example.two_barrows))).
Proof.
  apply (X15_features_of_a_label_share_attributes
           Example.two_barrows Example.two_barrows_resolved).
  vm_compute. reflexivity.
Defined.

(** Two barrows far apart, of scores 0.9 and 0.6: both features show 0.9
    and the path of the first tile. *)
Remark far_barrow_shows_first_score :
  map (fun f => (lookup "score" f, lookup "prediction_path" f))
      Example.two_barrows_resolved
  = [ (Some (CNum (Fin (9 # 10))), Some (CStr "run/predictions_barrow/tile_0.txt"));
      (Some (CNum (Fin (9 # 10))), Some (CStr "run/predictions_barrow/tile_0.txt")) ].
Proof. reflexivity. Qed.

(** ** The labels of segmentation features *)

Lemma foldM_inv_In {A S : Type} (f : S -> A -> M S) (I : S -> Prop) (l : list A) :
  (forall acc x s acc' s', In x l -> I acc -> f acc x s = (Returned acc', s') -> I acc') ->
  forall acc s acc' s',
    I acc -> foldM f acc l s = (Returned acc', s') -> I acc'.
Proof.
  induction l as [|x l IH]; intros Hf acc s acc' s' HI H.
  - apply ret_Returned in H. destruct H as [-> _]. exact HI.
  - simpl foldM in H. inv_bind H as acc1 s1 H1.
    eapply IH; [|eapply Hf; [left; reflexivity|exact HI|exact H1]|exact H].
    intros. eapply Hf; eauto. now right.
Qed.

Lemma seg_file_keyed (keys : list string) label t k (acc acc' : seg_acc) file s s' :
  In label keys ->
  Forall (Forall (fun r => exists key, In key keys /\ label_of r = CStr key)) (fst acc) ->
  seg_file label t k acc file s = (Returned acc', s') ->
  Forall (Forall (fun r => exists key, In key keys /\ label_of r = CStr key)) (fst acc').
Proof.
  intros Hkey HI H. unfold seg_file in H. inv_bind H as src s1 Hopen.
  destruct (foreground_polygons (binarize (band src) t) (transform src))
    as [|g poly] eqn:Hpoly.
  - apply ret_Returned in H. destruct H as [-> _]. exact HI.
  - inv_bind H as dis s2 Hdis. apply lift_Returned in Hdis. destruct Hdis as [Hdis ->].
    rewrite dissolve_all in Hdis by discriminate.
    destruct (unary_union (g :: poly)) as [u|] eqn:U; [|discriminate].
    injection Hdis as <-.
    inv_bind H as ex s3 Hex. apply lift_Returned in Hex. destruct Hex as [Hex ->].
    rewrite explode_single in Hex. injection Hex as <-.
    apply ret_Returned in H. destruct H as [-> _]. simpl fst.
    apply Forall_app. split; [exact HI|]. constructor; [|constructor].
    unfold ignore_index. apply Forall_forall. intros r Hr.
    exists label. split; [exact Hkey|].
    destruct k; rewrite !map_map in Hr; apply in_map_iff in Hr;
      destruct Hr as (p & <- & _); reflexivity.
Qed.

(** X16. In segmentation mode the label of every written feature is a key
    of the dictionary: the label is the key under which the raster's
    directory was given, whatever the name of the raster says. *)
Theorem X16_segmentation_labels_are_dictionary_keys
  (predictions_dirs_dict : dict) (threshold : Q) (keep_ml_paths : bool)
  (s s' : state) (p : string) :
  semantic_segmentation_vectors predictions_dirs_dict threshold keep_ml_paths s
  = (Returned p, s') ->
  p <> ""%string ->
  exists out d,
    path_str out = p /\ dataset_at out s' = Some d
    /\ Forall (fun f => exists key,
                   In key (map fst predictions_dirs_dict) /\ label_of f = CStr key) d.
Proof.
  intros H Hp. unfold semantic_segmentation_vectors in H.
  inv_bind H as first_dir s0 Hfirst.
  inv_bind H as acc s1 Hloop. destruct acc as [appended crs].
  assert (Hkeyed : Forall (Forall (fun r => exists key,
                     In key (map fst predictions_dirs_dict) /\ label_of r = CStr key))
                     appended).
  { change appended with (fst (appended, crs)).
    eapply (foldM_inv_In _ (fun acc : seg_acc =>
              Forall (Forall (fun r => exists key,
                In key (map fst predictions_dirs_dict) /\ label_of r = CStr key))
                (fst acc))); [| |exact Hloop]; [|constructor].
    intros acc [label dir] sa acc' sa' Hin HI Hitem. unfold seg_label in Hitem.
    inv_bind Hitem as tif_list sb Hglob.
    eapply (foldM_inv _ (fun acc : seg_acc =>
              Forall (Forall (fun r => exists key,
                In key (map fst predictions_dirs_dict) /\ label_of r = CStr key))
                (fst acc))); [|exact HI|exact Hitem].
    intros. eapply (seg_file_keyed _ label); eauto.
    apply in_map_iff. exists (label, dir). auto. }
  destruct appended as [|d0 appended].
  - apply ret_Returned in H. destruct H as [E _]. congruence.
  - inv_bind H as d s2 Hres. apply lift_Returned in Hres. destruct Hres as [Hres ->].
    inv_bind H as u s3 Hwrite. apply to_file_inv in Hwrite.
    apply ret_Returned in H. destruct H as [E ->]. subst s3 p.
    exists (child (parent first_dir) "semantic_segmentation.gpkg"), d.
    split; [reflexivity|]. split.
    + unfold dataset_at. simpl fs. now rewrite find_file_written.
    + apply resolve_overlaps_inv in Hres.
      destruct Hres as (ks & groups & Hks & Hg & ->).
      apply Forall_forall. intros f Hf.
      apply in_concat in Hf. destruct Hf as (fs1 & Hfs1 & Hf).
      apply in_map_iff in Hfs1. destruct Hfs1 as (g & <- & Hgin).
      destruct (Forall2_In_r _ _ _ Hg _ Hgin) as (k & Hk & (Hfst & _ & _)).
      unfold group_features in Hf. apply in_map_iff in Hf. destruct Hf as (part & <- & _).
      rewrite label_of_feature, Hfst.
      apply group_keys_In in Hk. destruct Hk as [Hk _].
      destruct (mapM_In_r _ _ _ _ Hks Hk) as (r & Hr & Hkey).
      apply key_of_label in Hkey. subst k.
      apply in_concat in Hr. destruct Hr as (d1 & Hd1 & Hr).
      rewrite Forall_forall in Hkeyed. specialize (Hkeyed d1 Hd1).
      rewrite Forall_forall in Hkeyed. rewrite <- Hkey. exact (Hkeyed r Hr).
Qed.

Lemma X16_witness :
  exists out d,
    path_str out = "/data/run/semantic_segmentation.gpkg"%string
    /\ dataset_at out
         (snd (semantic_segmentation_vectors Example.barrow_only (1 # 2) false
                 Example.one_raster)) = Some d
    /\ Forall (fun f => exists key,
                   In key (map fst Example.barrow_only) /\ label_of f = CStr key) d.
Proof.
  apply (X16_segmentation_labels_are_dictionary_keys
           Example.barrow_only (1 # 2) false Example.one_raster).
  - vm_compute. reflexivity.
  - discriminate.
Defined.
